(** * youtube_summarizer: a shallow embedding of [app.py]

    The development follows the source file top to bottom: Python strings,
    the regular expressions of [extract_video_id], the effects of the
    transcript pipeline ([get_transcript], [download_audio]), the prompt
    builder and the summarizer, and the button handler of [main]. After
    them come [load_environment] with the construction of the client at
    import time, and [get_transcript_with_selenium], which nothing calls. *)

From Stdlib Require Import Strings.String Strings.Ascii NArith.
From stdpp Require Import base option list gmap.

Local Open Scope N_scope.

#[local] Set Warnings "-clear-no-such-hyp,-unused-intro-pattern".

(** ** Python strings

    A Python [str] is a sequence of Unicode code points. *)

Abbreviation pystr := (list N).

(** String literals of the source are written as in the source and decoded
    from the UTF-8 bytes of the Rocq literal. *)
Fixpoint utf8_decode (bs : list N) (acc : N) (need : nat) : pystr :=
  match bs with
  | [] => []
  | b :: bs' =>
    if b <? 128 then b :: utf8_decode bs' 0 0%nat
    else if b <? 192 then
      let acc' := acc * 64 + b mod 64 in
      match need with
      | 0%nat => utf8_decode bs' 0 0%nat
      | 1%nat => acc' :: utf8_decode bs' 0 0%nat
      | S n => utf8_decode bs' acc' n
      end
    else if b <? 224 then utf8_decode bs' (b mod 32) 1%nat
    else if b <? 240 then utf8_decode bs' (b mod 16) 2%nat
    else utf8_decode bs' (b mod 8) 3%nat
  end.

Definition u (s : string) : pystr :=
  utf8_decode (map N_of_ascii (list_ascii_of_string s)) 0 0%nat.

(** [str.isspace] of one code point: the table of CPython's
    [_PyUnicode_IsWhitespace]. *)
Definition is_space (c : N) : bool :=
  ((9 <=? c) && (c <=? 13)) || ((28 <=? c) && (c <=? 32))
  || (c =? 133) || (c =? 160) || (c =? 5760)
  || ((8192 <=? c) && (c <=? 8202))
  || (c =? 8232) || (c =? 8233) || (c =? 8239) || (c =? 8287) || (c =? 12288).

Fixpoint lstrip (s : pystr) : pystr :=
  match s with
  | c :: s' => if is_space c then lstrip s' else s
  | [] => []
  end.

Definition rstrip (s : pystr) : pystr := rev (lstrip (rev s)).

(** [s.strip()] *)
Definition strip (s : pystr) : pystr := lstrip (rstrip s).

(** [sep.join(parts)] *)
Fixpoint join (sep : pystr) (parts : list pystr) : pystr :=
  match parts with
  | [] => []
  | [p] => p
  | p :: ps => p ++ sep ++ join sep ps
  end.

(** Truth value of a [str]: the empty string is falsy. *)
Definition truthy (s : pystr) : bool :=
  match s with [] => false | _ => true end.

(** ** Regular expressions

    The fragment of Python's [re] that the five patterns of
    [extract_video_id] use, with the backtracking semantics of [re]:
    alternatives are tried left to right, a star is greedy, [re.search]
    returns the leftmost match. *)

Inductive regex : Type :=
| Chr (c : N)                    (* a literal character *)
| Class (p : N -> bool)          (* a character class *)
| Cat (r1 r2 : regex)            (* r1 r2 *)
| Or (r1 r2 : regex)             (* r1 | r2 *)
| Times (n : nat) (r : regex)    (* r{n} *)
| StarC (p : N -> bool)          (* c* for a one-character class c, greedy *)
| Bol                            (* ^ *)
| Eol                            (* $ *)
| Group1 (r : regex)             (* the capturing group (...) *)
| Eps.                           (* the empty pattern *)

(** The matcher, in continuation-passing style. [bol] tells whether the
    position is the start of the string, [s] is the input left, [g] is
    what group 1 holds so far. The continuation is the rest of the
    pattern; [None] makes the matcher backtrack. *)
Section Matcher.
Context {R : Type}.
Abbreviation cont := (bool -> pystr -> option pystr -> option R).

Fixpoint star_class (p : N -> bool) (k : cont)
    (bol : bool) (s : pystr) (g : option pystr) : option R :=
  match s with
  | c :: s' =>
    if p c then
      match star_class p k false s' g with
      | Some r => Some r
      | None => k bol s g
      end
    else k bol s g
  | [] => k bol s g
  end.

Fixpoint rmatch (r : regex) (k : cont)
    (bol : bool) (s : pystr) (g : option pystr) : option R :=
  match r with
  | Chr c =>
    match s with
    | c' :: s' => if c' =? c then k false s' g else None
    | [] => None
    end
  | Class p =>
    match s with
    | c' :: s' => if p c' then k false s' g else None
    | [] => None
    end
  | Cat r1 r2 => rmatch r1 (rmatch r2 k) bol s g
  | Or r1 r2 =>
    match rmatch r1 k bol s g with
    | Some res => Some res
    | None => rmatch r2 k bol s g
    end
  | Times n r1 =>
    (fix times (n : nat) (k : cont) : cont :=
       match n with
       | O => k
       | S n' => rmatch r1 (times n' k)
       end) n k bol s g
  | StarC p => star_class p k bol s g
  | Bol => if bol then k bol s g else None
  | Eol =>
    (* the end of the string, or just before a newline that ends it *)
    match s with
    | [] => k bol s g
    | [c] => if c =? 10 then k bol s g else None
    | _ => None
    end
  | Group1 r1 =>
    rmatch r1
      (fun bol' s' _ => k bol' s' (Some (take (length s - length s') s)))
      bol s g
  | Eps => k bol s g
  end.
End Matcher.

(** A match object, reduced to what [extract_video_id] reads from it:
    [capture] is group 1, [None] when the group took no part. *)
Record pymatch := { capture : option pystr }.

Definition match_here (r : regex) (bol : bool) (s : pystr) : option pymatch :=
  rmatch r (fun _ _ g => Some {| capture := g |}) bol s None.

Fixpoint search_from (r : regex) (bol : bool) (s : pystr) : option pymatch :=
  match match_here r bol s with
  | Some m => Some m
  | None =>
    match s with
    | [] => None
    | _ :: s' => search_from r false s'
    end
  end.

(** [re.search(pattern, s)] *)
Definition re_search (r : regex) (s : pystr) : option pymatch :=
  search_from r true s.

(** [match.group(1)]. Python gives [None] for a group that took no part;
    in each pattern below the group lies on the only path to a match
    (lemma [patterns_capture]), so the default is never the answer. *)
Definition group1 (m : pymatch) : pystr := default [] (capture m).

(** ** [extract_video_id] *)

Fixpoint lit (w : pystr) : regex :=
  match w with
  | [] => Eps
  | [c] => Chr c
  | c :: w' => Cat (Chr c) (lit w')
  end.

(** [[0-9A-Za-z_-]] *)
Definition id_char (c : N) : bool :=
  ((48 <=? c) && (c <=? 57)) || ((65 <=? c) && (c <=? 90))
  || ((97 <=? c) && (c <=? 122)) || (c =? 95) || (c =? 45).

(** [.] (without DOTALL): anything but a newline *)
Definition dot (c : N) : bool := negb (c =? 10).

(** [([0-9A-Za-z_-]{11})] *)
Definition id11 : regex := Group1 (Times 11 (Class id_char)).

(** [(?:v=|\/)([0-9A-Za-z_-]{11}).*]: standard and shared URLs *)
Definition pat_standard : regex :=
  Cat (Or (lit (u "v=")) (lit (u "/"))) (Cat id11 (StarC dot)).

(** [(?:embed\/)([0-9A-Za-z_-]{11})]: embed URLs *)
Definition pat_embed : regex := Cat (lit (u "embed/")) id11.

(** [(?:youtu\.be\/)([0-9A-Za-z_-]{11})]: shortened URLs *)
Definition pat_short : regex := Cat (lit (u "youtu.be/")) id11.

(** [(?:shorts\/)([0-9A-Za-z_-]{11})]: YouTube Shorts *)
Definition pat_shorts : regex := Cat (lit (u "shorts/")) id11.

(** [^([0-9A-Za-z_-]{11})$]: just the video id *)
Definition pat_bare : regex := Cat Bol (Cat id11 Eol).

Definition patterns : list regex :=
  [pat_standard; pat_embed; pat_short; pat_shorts; pat_bare].

(** Exceptions. Every exception of the model is an instance of a subclass
    of Python's [Exception]; [exn_msg] is [str(e)]. *)
Inductive exn_class :=
| ValueError | TypeError | KeyError | StopIteration | FileNotFoundError
| PlainException          (* [Exception(...)] itself *)
| LibraryError.           (* an exception class of a third-party library *)

Record exn := Exn { exn_class_of : exn_class; exn_msg : pystr }.

(** The [for pattern in patterns] loop. *)
Fixpoint first_match (ps : list regex) (s : pystr) : exn + pystr :=
  match ps with
  | [] => inl (Exn ValueError (u "Could not extract video ID from URL"))
  | pattern :: ps' =>
    match re_search pattern s with
    | Some m => inr (group1 m)
    | None => first_match ps' s
    end
  end.

Definition extract_video_id (youtube_url : pystr) : exn + pystr :=
  let youtube_url := strip youtube_url in
  first_match patterns youtube_url.

(** ** Effects

    A run starts from the regular files present in the file system, ends
    with a value or an exception, and leaves the files it leaves and the
    list of what it did that can be seen from outside: Streamlit output,
    calls of third-party services, calls of the program's own functions. *)

Abbreviation store := (gset pystr).

Inductive fn := FnGetTranscript | FnDownloadAudio | FnSummarize.

Inductive st_call :=
| StTitle | StInfo | StSuccess | StWarning | StError
| StStatus.               (* [status_text.text(...)] *)

Record chat_request := {
  model : pystr;
  messages : list (pystr * pystr);   (* role, content *)
  max_tokens : N
}.

Inductive ext_call :=
| ListTranscripts (video_id : pystr)
| FindManuallyCreated
| Fetch (language : pystr)
| Makedirs (dir : pystr)
| NewYouTube (url : pystr)
| StreamsFirst
| StreamDownload (output_path filename : pystr) (result : exn + pystr)
| OsSystem (command : pystr)
| OsRemove (path : pystr)
| Transcribe (whisper_model path : pystr)
| ChatCompletion (request : chat_request).

Inductive event :=
| Enter (f : fn)
| St (c : st_call) (text : pystr)
| StMarkdown (body : option pystr)
| StProgress (n : N)
| Ext (c : ext_call).

Record outcome (A : Type) := Outcome {
  res : exn + A;
  files : store;
  log : list event
}.
Arguments Outcome {A}.
Arguments res {A}.
Arguments files {A}.
Arguments log {A}.

Definition M (A : Type) : Type := store -> outcome A.

Definition ret {A} (a : A) : M A := fun fs => Outcome (inr a) fs [].

Definition raise {A} (e : exn) : M A := fun fs => Outcome (inl e) fs [].

Definition bind {A B} (m : M A) (f : A -> M B) : M B := fun fs =>
  match m fs with
  | Outcome (inl e) fs1 l1 => Outcome (inl e) fs1 l1
  | Outcome (inr a) fs1 l1 =>
    let 'Outcome r fs2 l2 := f a fs1 in Outcome r fs2 (l1 ++ l2)
  end.

Notation "x <- m ;; k" := (bind m (fun x => k))
  (at level 100, m at next level, right associativity).
Notation "m ;; k" := (bind m (fun _ => k))
  (at level 100, right associativity).

Definition emit (e : event) : M unit := fun fs => Outcome (inr tt) fs [e].

Definition lift {A} (r : exn + A) : M A :=
  match r with inl e => raise e | inr a => ret a end.

(** [try: body except Exception as e: handler] (and the bare [except:];
    every exception of the model is an [Exception]) *)
Definition try_except {A} (body : M A) (handler : exn -> M A) : M A := fun fs =>
  match body fs with
  | Outcome (inl e) fs1 l1 =>
    let 'Outcome r fs2 l2 := handler e fs1 in Outcome r fs2 (l1 ++ l2)
  | Outcome (inr a) fs1 l1 => Outcome (inr a) fs1 l1
  end.

(** [try: body finally: cleanup]: the cleanup runs on both exits; an
    exception of the cleanup replaces the outcome of the body. *)
Definition try_finally {A} (body : M A) (cleanup : M unit) : M A := fun fs =>
  let 'Outcome r fs1 l1 := body fs in
  match cleanup fs1 with
  | Outcome (inl e) fs2 l2 => Outcome (inl e) fs2 (l1 ++ l2)
  | Outcome (inr _) fs2 l2 => Outcome r fs2 (l1 ++ l2)
  end.

(** A call of one of the program's own functions. *)
Definition call {A} (f : fn) (body : M A) : M A := emit (Enter f) ;; body.

(** A call of a third-party service whose outcome does not touch the files. *)
Definition ext {A} (c : ext_call) (r : exn + A) : M A := emit (Ext c) ;; lift r.

Definition st (c : st_call) (text : pystr) : M unit := emit (St c text).

(** [os.path.exists(path)] *)
Definition path_exists (path : pystr) : M bool := fun fs =>
  Outcome (inr (bool_decide (path ∈ fs))) fs [].

Definition no_such_file (path : pystr) : exn :=
  Exn FileNotFoundError
      (u "[Errno 2] No such file or directory: '" ++ path ++ u "'").

(** [os.remove(path)] *)
Definition os_remove (path : pystr) : M unit := fun fs =>
  if bool_decide (path ∈ fs)
  then Outcome (inr tt) (fs ∖ {[path]}) [Ext (OsRemove path)]
  else Outcome (inl (no_such_file path)) fs [Ext (OsRemove path)].

(** [open(path, "rb")], with the file closed again by [with] *)
Definition open_rb (path : pystr) : M unit := fun fs =>
  if bool_decide (path ∈ fs)
  then Outcome (inr tt) fs []
  else Outcome (inl (no_such_file path)) fs [].

Definition starts_with_sep (p : pystr) : bool :=
  match p with c :: _ => c =? 47 | [] => false end.

Definition ends_with_sep (p : pystr) : bool :=
  match last p with Some c => c =? 47 | None => false end.

(** [os.path.join(a, b)] of [posixpath] *)
Definition path_join (a b : pystr) : pystr :=
  if starts_with_sep b then b
  else if negb (truthy a) || ends_with_sep a then a ++ b
  else a ++ u "/" ++ b.

(** ** Third-party services

    The captions library, the download library, the encoder started by
    [os.system], the speech-to-text and text-generation backends and the
    text splitter are not part of the program: what they answer is a
    parameter of every run. Objects carry the outcome of the methods the
    program calls on them. *)

Record segment := { seg_text : pystr }.      (* [part['text']] *)

Record track := {
  is_generated : bool;
  language_code : pystr;
  fetch : exn + list segment
}.

Record transcript_list := {
  tracks : list track;                       (* in the order of iteration *)
  find_manually_created_transcript : exn + track
}.

Record stream := {
  (* [download(output_path=..., filename=...)]: the path written, or an
     exception, and what the call leaves in the file system *)
  download : pystr -> pystr -> store -> (exn + pystr) * store
}.

Record youtube := {
  (* [streams.filter(only_audio=True, file_extension='mp4').first()] *)
  first_audio_stream : exn + option stream
}.

Record services := {
  list_transcripts : pystr -> exn + transcript_list;
  getenv_TMPDIR : option pystr;
  makedirs : pystr -> exn + unit;
  new_YouTube : pystr -> exn + youtube;
  os_system : pystr -> store -> store;
  transcribe : pystr -> pystr -> exn + pystr;
  (* [RecursiveCharacterTextSplitter(chunk_size, chunk_overlap,
     length_function=len).split_text(text)], [text] a [str] or [None] *)
  split_text : N -> N -> option pystr -> exn + list pystr;
  (* [chat.completions.create(...).choices[0].message.content];
     [temperature=0.7] is a constant of every request *)
  chat_completions : chat_request -> exn + option pystr
}.

(** ** [download_audio] *)

Definition dquote : pystr := [34].

(** [temp_dir = os.getenv('TMPDIR', '/tmp/youtube_audio')] *)
Definition temp_dir (sv : services) : pystr :=
  default (u "/tmp/youtube_audio") (getenv_TMPDIR sv).

(** [output_file = os.path.join(temp_dir, f"{video_id}.mp3")] *)
Definition output_file (sv : services) (video_id : pystr) : pystr :=
  path_join (temp_dir sv) (video_id ++ u ".mp3").

(** The command line given to [os.system]. *)
Definition ffmpeg_command (downloaded_file output_file : pystr) : pystr :=
  u "ffmpeg -i " ++ dquote ++ downloaded_file ++ dquote
  ++ u " -vn -acodec libmp3lame -ab 128k -ar 44100 "
  ++ dquote ++ output_file ++ dquote ++ u " -y".

Definition download_audio (sv : services) (youtube_url : pystr) : M (option pystr) :=
  try_except
    (st StInfo (u "Downloading audio...") ;;
     video_id <- lift (extract_video_id youtube_url) ;;
     ext (Makedirs (temp_dir sv)) (makedirs sv (temp_dir sv)) ;;
     yt <- ext (NewYouTube youtube_url) (new_YouTube sv youtube_url) ;;
     audio_stream <- ext StreamsFirst (first_audio_stream yt) ;;
     match audio_stream with
     | None => raise (Exn PlainException (u "No audio stream found"))
     | Some audio_stream =>
       downloaded_file <-
         (fun fs =>
            let filename := video_id ++ u "_temp.mp4" in
            let '(r, fs') := download audio_stream (temp_dir sv) filename fs in
            Outcome r fs' [Ext (StreamDownload (temp_dir sv) filename r)]) ;;
       (fun fs =>
          let command := ffmpeg_command downloaded_file (output_file sv video_id) in
          Outcome (inr tt) (os_system sv command fs) [Ext (OsSystem command)]) ;;
       raw_there <- path_exists downloaded_file ;;
       (if raw_there : bool then os_remove downloaded_file else ret tt) ;;
       out_there <- path_exists (output_file sv video_id) ;;
       if out_there : bool then
         st StSuccess (u "Audio downloaded successfully!") ;;
         ret (Some (output_file sv video_id))
       else raise (Exn PlainException (u "Audio conversion failed"))
     end)
    (fun e =>
       st StError (u "Error downloading audio: " ++ exn_msg e) ;;
       ret None).

(** ** [get_transcript] *)

(** [next(iter(transcript_list))] *)
Definition next_iter (l : list track) : M track :=
  match l with
  | t :: _ => ret t
  | [] => raise (Exn StopIteration [])
  end.

(** The body of the inner [try]: the captions of the video. *)
Definition fetch_captions (sv : services) (video_id : pystr) : M (pystr * pystr) :=
  transcript_list <- ext (ListTranscripts video_id) (list_transcripts sv video_id) ;;
  transcript <-
    try_except
      (transcript <- ext FindManuallyCreated
                         (find_manually_created_transcript transcript_list) ;;
       st StSuccess (u "Found manual transcript!") ;;
       ret transcript)
      (fun _ =>
         transcript <- next_iter (tracks transcript_list) ;;
         st StSuccess (u "Found auto-generated transcript!") ;;
         ret transcript) ;;
  parts <- ext (Fetch (language_code transcript)) (fetch transcript) ;;
  let full_transcript := join (u " ") (map seg_text parts) in
  ret (full_transcript, language_code transcript).

(** What follows the download in the fallback: [audio_file] is what
    [download_audio] returned. *)
Definition transcribe_audio (sv : services) (audio_file : option pystr)
    : M (option pystr * option pystr) :=
  let failed := raise (Exn PlainException (u "Audio download failed")) in
  match audio_file with
  | None => failed
  | Some path =>
    there <- (if truthy path then path_exists path else ret false) ;;
    if there : bool then
      try_finally
        (open_rb path ;;
         transcript <- ext (Transcribe (u "whisper-large-v3") path)
                           (transcribe sv (u "whisper-large-v3") path) ;;
         st StSuccess (u "Transcription successful!") ;;
         ret (Some transcript, Some (u "en")))
        (still_there <- path_exists path ;;
         if still_there : bool then os_remove path else ret tt)
    else failed
  end.

(** The handler of the inner [try]: transcription of the audio track. *)
Definition whisper_fallback (sv : services) (youtube_url : pystr) (e : exn)
    : M (option pystr * option pystr) :=
  st StWarning (u "YouTube transcript not available: " ++ exn_msg e) ;;
  st StInfo (u "Attempting to transcribe with Groq Whisper...") ;;
  try_except
    (audio_file <- call FnDownloadAudio (download_audio sv youtube_url) ;;
     transcribe_audio sv audio_file)
    (fun e =>
       st StError (u "Transcription failed: " ++ exn_msg e) ;;
       ret (None, None)).

Definition get_transcript (sv : services) (youtube_url : pystr)
    : M (option pystr * option pystr) :=
  try_except
    (video_id <- lift (extract_video_id youtube_url) ;;
     st StInfo (u "Getting transcript for video: " ++ video_id) ;;
     try_except
       (captions <- fetch_captions sv video_id ;;
        let '(full_transcript, language_code) := captions in
        ret (Some full_transcript, Some language_code))
       (whisper_fallback sv youtube_url))
    (fun e =>
       st StError (u "Error processing video: " ++ exn_msg e) ;;
       ret (None, None)).

(** ** [get_available_languages] *)

(** The dictionary, in the order of its keys. *)
Definition get_available_languages : list (pystr * pystr) :=
  [ (u "English", u "en"); (u "Deutsch", u "de"); (u "Español", u "es");
    (u "Français", u "fr"); (u "Italiano", u "it"); (u "Nederlands", u "nl");
    (u "Polski", u "pl"); (u "Português", u "pt"); (u "日本語", u "ja");
    (u "中文", u "zh"); (u "한국어", u "ko"); (u "Русский", u "ru") ].

(** [d[key]]. The message of the [KeyError] is the [repr] of the key: the
    key in single quotes, for a key without quotes, backslashes and control
    characters. *)
Fixpoint dict_item (d : list (pystr * pystr)) (key : pystr) : exn + pystr :=
  match d with
  | [] => inl (Exn KeyError (u "'" ++ key ++ u "'"))
  | (k, v) :: d' => if bool_decide (k = key) then inr v else dict_item d' key
  end.

(** ** [create_summary_prompt] *)

(** One entry of [language_prompts]: a dictionary with the five keys
    ['title'], ['overview'], ['key_points'], ['takeaways'], ['context']. *)
Record vocabulary := {
  title : pystr;
  overview : pystr;
  key_points : pystr;
  takeaways : pystr;
  context : pystr
}.

Definition english : vocabulary := {|
  title := u "TITLE";
  overview := u "OVERVIEW";
  key_points := u "KEY POINTS";
  takeaways := u "MAIN TAKEAWAYS";
  context := u "CONTEXT & IMPLICATIONS"
|}.

Definition german : vocabulary := {|
  title := u "TITEL";
  overview := u "ÜBERBLICK";
  key_points := u "KERNPUNKTE";
  takeaways := u "HAUPTERKENNTNISSE";
  context := u "KONTEXT & AUSWIRKUNGEN"
|}.

Definition language_prompts : gmap pystr vocabulary :=
  <[u "de" := german]> (<[u "en" := english]> ∅).

Definition create_summary_prompt (text target_language : pystr) : pystr * pystr :=
  (* Default to English if language not in dictionary *)
  let prompts := default english (language_prompts !! target_language) in
  let system_prompt :=
    u "You are an expert content analyst and summarizer. Create a comprehensive 
    summary in "
    ++ target_language ++
    u ". Ensure all content is fully translated and culturally adapted 
    to the target language." in
  let user_prompt :=
    u "Please provide a detailed summary of the following content in "
    ++ target_language ++
    u ". 
    Structure your response as follows:

    🎯 "
    ++ title prompts ++
    u ": Create a descriptive title

    📝 "
    ++ overview prompts ++
    u " (2-3 sentences):
    - Provide a brief context and main purpose

    🔑 "
    ++ key_points prompts ++
    u ":
    - Extract and explain the main arguments
    - Include specific examples
    - Highlight unique perspectives

    💡 "
    ++ takeaways prompts ++
    u ":
    - List 3-5 practical insights
    - Explain their significance

    🔄 "
    ++ context prompts ++
    u ":
    - Broader context discussion
    - Future implications

    Text to summarize: "
    ++ text ++
    u "

    Ensure the summary is comprehensive enough for someone who hasn't seen the original content." in
  (system_prompt, user_prompt).

(** ** [summarize_with_langchain_and_openai] *)

Definition summarize_with_langchain_and_openai (sv : services)
    (transcript : option pystr) (language_code model_name : pystr)
    : M (option pystr) :=
  texts <- lift (split_text sv 2000 200 transcript) ;;
  let text_to_summarize := join (u " ") (take 4 texts) in
  let '(system_prompt, user_prompt) :=
    create_summary_prompt text_to_summarize language_code in
  try_except
    (let request := {|
       model := model_name;
       messages := [(u "system", system_prompt); (u "user", user_prompt)];
       max_tokens := 4000
     |} in
     ext (ChatCompletion request) (chat_completions sv request))
    (fun e =>
       st StError (u "Error with Groq API: " ++ exn_msg e) ;;
       ret None).

(** ** [main]

    The values of the widgets are the arguments: the text of the URL
    field, the entry chosen in the language box and whether the button was
    pressed. *)

Definition intro : pystr :=
  u "
    This tool creates comprehensive summaries of YouTube videos using advanced AI technology.
    It works with both videos that have transcripts and those that don't!
    ".

Definition main (sv : services) (link target_language : pystr) (button : bool)
    : M unit :=
  st StTitle (u "📺 Advanced YouTube Video Summarizer") ;;
  emit (StMarkdown (Some intro)) ;;
  let languages := get_available_languages in
  target_language_code <- lift (dict_item languages target_language) ;;
  if button then
    if truthy link then
      try_except
        (emit (StProgress 0) ;;
         st StStatus (u "📥 Fetching video transcript...") ;;
         emit (StProgress 25) ;;
         result <- call FnGetTranscript (get_transcript sv link) ;;
         let '(transcript, _) := result in
         st StStatus (u "🤖 Generating " ++ target_language ++ u " summary...") ;;
         emit (StProgress 75) ;;
         summary <- call FnSummarize
                      (summarize_with_langchain_and_openai sv transcript
                         target_language_code (u "llama-3.1-8b-instant")) ;;
         st StStatus (u "✨ Summary Ready!") ;;
         emit (StMarkdown summary) ;;
         emit (StProgress 100))
        (fun e => st StError (u "An error occurred: " ++ exn_msg e))
    else st StWarning (u "Please enter a valid YouTube link.")
  else ret tt.

(** ** [load_environment] and the client

    The start of the script. [os.environ] is a map; what is in the [.env]
    file, and so what [load_dotenv] does to the environment, is a
    parameter, as is the constructor of the client. *)

Record host := {
  script_dir : pystr;                    (* [os.path.dirname(__file__)] *)
  load_dotenv : pystr -> gmap pystr pystr -> exn + gmap pystr pystr;
  new_OpenAI : pystr -> pystr -> exn + unit   (* [OpenAI(api_key=, base_url=)] *)
}.

Definition key_not_found : exn :=
  Exn ValueError (u "GROQ_API_KEY not found in environment variables").

(** [load_environment()]: the key or the exception, and the environment
    that the call leaves. *)
Definition load_environment (h : host) (fs : store)
    (environ : gmap pystr pystr) : (exn + pystr) * gmap pystr pystr :=
  let env_path := path_join (script_dir h) (u ".env") in
  let loaded :=
    if bool_decide (env_path ∈ fs) then load_dotenv h env_path environ
    else inr environ in
  match loaded with
  | inl e => (inl e, environ)
  | inr environ =>
    let api_key := environ !! u "GROQ_API_KEY" in
    match api_key with
    | Some key => if truthy key then (inr key, environ)
                  else (inl key_not_found, environ)
    | None => (inl key_not_found, environ)
    end
  end.

Definition groq_url : pystr := u "https://api.groq.com/openai/v1".

(** The [try] at the top of the module; [false] stands for [st.stop()]. *)
Definition initialize (h : host) (environ : gmap pystr pystr) : M bool :=
  try_except
    (api_key <- (fun fs => Outcome (load_environment h fs environ).1 fs []) ;;
     lift (new_OpenAI h api_key groq_url) ;;
     ret true)
    (fun e =>
       st StError (u "Error initializing API client: " ++ exn_msg e) ;;
       ret false).

(** The script, run as the main module: [st.stop()] ends the run, and
    otherwise [main()] is called. *)
Definition script (h : host) (sv : services) (environ : gmap pystr pystr)
    (link target_language : pystr) (button : bool) : M unit :=
  running <- initialize h environ ;;
  if running : bool then main sv link target_language button else ret tt.

(** ** [get_transcript_with_selenium]

    The browser is a parameter: what each call answers, the texts of the
    transcript elements, and the two credentials of the environment. The
    waits are for ten seconds each. The state of a run is whether the local
    variable [driver] is bound. The file imports none of [webdriver], [By],
    [WebDriverWait] and [EC]: the answer to the first call stands for the
    [NameError] of line 111 as well. *)

Inductive locator := ByName | ByCssSelector.

Inductive browser_call :=
| ChromeOptions
| AddArgument (argument : pystr)
| Chrome
| DriverGet (url : pystr)
| FindElement (by_ : locator) (value : pystr)
| SendKeys (element : pystr) (keys : option pystr)
| Submit (element : pystr)
| WaitPresence (by_ : locator) (value : pystr)
| Click
| FindElements (by_ : locator) (value : pystr)
| DriverQuit.

Record browser := {
  answer : browser_call -> exn + unit;
  element_texts : exn + list pystr;      (* [elem.text] of the elements found *)
  google_email : option pystr;           (* [os.getenv('GOOGLE_EMAIL')] *)
  google_password : option pystr
}.

Inductive browser_event :=
| Called (c : browser_call)
| Shown (c : st_call) (text : pystr).

(** What leaves the function: an exception of the body or of
    [driver.quit()], or the [UnboundLocalError] of a variable that is read
    before it is bound. *)
Inductive raised :=
| Raised (e : exn)
| UnboundLocalError (name : pystr).

Record b_outcome (X A : Type) := BOutcome {
  b_res : X + A;
  driver_bound : bool;
  b_log : list browser_event
}.
Arguments BOutcome {X A}.
Arguments b_res {X A}.
Arguments driver_bound {X A}.
Arguments b_log {X A}.

Definition B (X A : Type) : Type := bool -> b_outcome X A.

Definition b_ret {X A} (a : A) : B X A := fun bound => BOutcome (inr a) bound [].

Definition b_bind {X A C} (m : B X A) (f : A -> B X C) : B X C := fun bound =>
  match m bound with
  | BOutcome (inl e) bound1 l1 => BOutcome (inl e) bound1 l1
  | BOutcome (inr a) bound1 l1 =>
    let 'BOutcome r bound2 l2 := f a bound1 in BOutcome r bound2 (l1 ++ l2)
  end.

Notation "x <~ m ;; k" := (b_bind m (fun x => k))
  (at level 100, m at next level, right associativity).
Notation "m ;;; k" := (b_bind m (fun _ => k))
  (at level 100, right associativity).

Definition b_call (b : browser) (c : browser_call) : B exn unit := fun bound =>
  BOutcome (answer b c) bound [Called c].

(** [driver = ...]: the variable is bound from here on. *)
Definition bind_driver {X} : B X unit := fun _ => BOutcome (inr tt) true [].

Definition b_try_except {A} (body : B exn A) (handler : exn -> B exn A)
    : B exn A := fun bound =>
  match body bound with
  | BOutcome (inl e) bound1 l1 =>
    let 'BOutcome r bound2 l2 := handler e bound1 in BOutcome r bound2 (l1 ++ l2)
  | BOutcome (inr a) bound1 l1 => BOutcome (inr a) bound1 l1
  end.

(** [try: body finally: cleanup]: an exception of the cleanup replaces the
    result of the body. *)
Definition b_try_finally {A} (body : B exn A) (cleanup : B raised unit)
    : B raised A := fun bound =>
  let 'BOutcome r bound1 l1 := body bound in
  match cleanup bound1 with
  | BOutcome (inl e) bound2 l2 => BOutcome (inl e) bound2 (l1 ++ l2)
  | BOutcome (inr _) bound2 l2 =>
    BOutcome (match r with inl e => inl (Raised e) | inr a => inr a end)
             bound2 (l1 ++ l2)
  end.

(** [driver.quit()] in the [finally] clause. *)
Definition driver_quit (b : browser) : B raised unit := fun bound =>
  if bound then
    BOutcome (match answer b DriverQuit with
              | inl e => inl (Raised e)
              | inr _ => inr tt
              end) bound [Called DriverQuit]
  else BOutcome (inl (UnboundLocalError (u "driver"))) bound [].


(** ** Vocabulary of the statements *)

(** Eleven characters of the class of the patterns. *)
Definition is_video_id (w : pystr) : bool :=
  (length w =? 11)%nat && forallb id_char w.

(** The [n] characters of class [p] at the head of [s], if they are there. *)
Fixpoint take_class (p : N -> bool) (n : nat) (s : pystr) : option pystr :=
  match n with
  | O => Some []
  | S n' =>
    match s with
    | c :: s' => if p c then (c ::.) <$> take_class p n' s' else None
    | [] => None
    end
  end.

(** What the first pattern captures when it is matched at the head of [s]. *)
Definition standard_at (s : pystr) : option pystr :=
  match s with
  | c :: t =>
    if c =? 118 then                              (* v *)
      match t with
      | d :: t' => if d =? 61 then take_class id_char 11 t' else None   (* = *)
      | [] => None
      end
    else if c =? 47 then take_class id_char 11 t  (* / *)
    else None
  | [] => None
  end.

Definition found (i : pystr) : pymatch := {| capture := Some i |}.

(** The five shapes as the patterns read them. In a link the id stands
    right after [mark], which is [v=] or a slash, and [mark] right after
    the word [pre] of the pattern; the fifth shape is the id alone. *)
Definition url_shapes : list (pystr * pystr) :=
  [ ([], u "v="); ([], u "/");     (* standard and shared URLs *)
    (u "embed", u "/");            (* embed URLs *)
    (u "youtu.be", u "/");         (* shortened URLs *)
    (u "shorts", u "/") ].         (* YouTube Shorts *)

(** The links of the site itself in these shapes, around the id [i]: the
    watch page, the embed page, the short link, the shorts page, each with
    whatever follows the id, and the id alone, with white space around
    it. *)
Inductive recognized : pystr -> pystr -> Prop :=
| Watch_url i rest :
    recognized (u "https://www.youtube.com/watch?v=" ++ i ++ rest) i
| Embed_url i rest :
    recognized (u "https://www.youtube.com/embed/" ++ i ++ rest) i
| Short_url i rest :
    recognized (u "https://youtu.be/" ++ i ++ rest) i
| Shorts_url i rest :
    recognized (u "https://www.youtube.com/shorts/" ++ i ++ rest) i
| Bare_id i l r :
    forallb is_space l = true -> forallb is_space r = true ->
    recognized (l ++ i ++ r) i.

(** The id alphabet as the specification words it: alphanumeric plus
    [.], [_] and [-]. *)
Definition spec_id_char (c : N) : bool :=
  ((48 <=? c) && (c <=? 57)) || ((65 <=? c) && (c <=? 90))
  || ((97 <=? c) && (c <=? 122)) || (c =? 46) || (c =? 95) || (c =? 45).

Definition is_spec_id (w : pystr) : bool :=
  (length w =? 11)%nat && forallb spec_id_char w.

Definition invalid_url : exn :=
  Exn ValueError (u "Could not extract video ID from URL").

(** What is counted in the log of a run. *)
Definition is_download_call (e : event) : bool :=
  match e with Enter FnDownloadAudio => true | _ => false end.

Definition is_transcribe_call (e : event) : bool :=
  match e with Ext (Transcribe _ _) => true | _ => false end.

Definition is_chat_call (e : event) : bool :=
  match e with Ext (ChatCompletion _) => true | _ => false end.

Definition is_markdown (e : event) : bool :=
  match e with StMarkdown _ => true | _ => false end.

Fixpoint count (p : event -> bool) (l : list event) : nat :=
  match l with
  | [] => 0%nat
  | e :: l' => ((if p e then 1 else 0) + count p l')%nat
  end.

(** An event that is neither a call of [download_audio] nor a call of the
    transcription. *)
Definition quiet (e : event) : Prop :=
  is_download_call e = false /\ is_transcribe_call e = false.

Definition download_failed : exn :=
  Exn PlainException (u "Audio download failed").


Definition silent (e : event) : Prop :=
  is_chat_call e = false /\ is_markdown e = false.


(** The request that the summarizer sends for the text [text]. *)
Definition request_for (text language_code model_name : pystr) : chat_request :=
  {| model := model_name;
     messages := [(u "system", (create_summary_prompt text language_code).1);
                  (u "user", (create_summary_prompt text language_code).2)];
     max_tokens := 4000 |}.

(** The answers of the services with which [download_audio] reaches its
    last test: the id is found, the directory is made, the stream is there
    and the download returns [raw], leaving the files [fs1]. *)
Definition download_reaches (sv : services) (url : pystr) (fs : store)
    (vid raw : pystr) (fs1 : store) : Prop :=
  extract_video_id url = inr vid
  /\ makedirs sv (temp_dir sv) = inr tt
  /\ exists yt strm,
       new_YouTube sv url = inr yt
       /\ first_audio_stream yt = inr (Some strm)
       /\ download strm (temp_dir sv) (vid ++ u "_temp.mp4") fs = (inr raw, fs1).

(** The events of a run that only asks the captions library. *)
Definition captions_only (e : event) : bool :=
  match e with
  | Ext (ListTranscripts _) | Ext FindManuallyCreated | Ext (Fetch _)
  | St _ _ => true
  | _ => false
  end.

(** What [main] shows before and after the two steps of a run. *)
Definition main_opening : list event :=
  [St StTitle (u "📺 Advanced YouTube Video Summarizer");
   StMarkdown (Some intro)].

Definition main_fetching : list event :=
  [StProgress 0; St StStatus (u "📥 Fetching video transcript...");
   StProgress 25; Enter FnGetTranscript].

Definition main_generating (target_language : pystr) : list event :=
  [St StStatus (u "🤖 Generating " ++ target_language ++ u " summary...");
   StProgress 75; Enter FnSummarize].

Definition main_ready (summary : option pystr) : list event :=
  [St StStatus (u "✨ Summary Ready!"); StMarkdown summary; StProgress 100].

Definition llama : pystr := u "llama-3.1-8b-instant".

(** The run of the script that [st.stop()] ends. *)
Definition stopped (e : exn) (fs : store) : outcome unit :=
  Outcome (inr tt) fs
    [St StError (u "Error initializing API client: " ++ exn_msg e)].




(** ** Services to run the program on

    A world for the examples: the captions library answers [listing], the
    speech-to-text backend answers [heard], the download writes the file it
    is asked for, the encoder writes the audio file of the video
    [dQw4w9WgXcQ], the splitter rejects [None] and cuts nothing. *)
Definition demo_stream : stream :=
  {| download := fun output_path filename fs =>
       (inr (path_join output_path filename),
        {[path_join output_path filename]} ∪ fs) |}.

Definition demo (listing : exn + transcript_list) (audio : exn + option stream)
    (heard : exn + pystr) : services :=
  {| list_transcripts := fun _ => listing;
     getenv_TMPDIR := None;
     makedirs := fun _ => inr tt;
     new_YouTube := fun _ => inr {| first_audio_stream := audio |};
     os_system := fun _ fs => {[u "/tmp/youtube_audio/dQw4w9WgXcQ.mp3"]} ∪ fs;
     transcribe := fun _ _ => heard;
     split_text := fun _ _ text =>
       match text with
       | None => inl (Exn TypeError (u "expected string or bytes-like object"))
       | Some t => inr [t]
       end;
     chat_completions := fun _ => inr (Some (u "a summary")) |}.

Definition unavailable : exn := Exn LibraryError (u "Subtitles are disabled").

Definition manual_track (fetched : exn + list segment) : track :=
  {| is_generated := false; language_code := u "en"; fetch := fetched |}.

Definition auto_track : track :=
  {| is_generated := true; language_code := u "de";
     fetch := inr [{| seg_text := u "automatisch" |}] |}.

Definition two_segments : list segment :=
  [{| seg_text := u "never gonna" |}; {| seg_text := u "give you up" |}].

(** A listing with an automatic and a manual track, in this order, whose
    lookup finds the manual one. *)
Definition listing_of (fetched : exn + list segment) : transcript_list :=
  {| tracks := [auto_track; manual_track fetched];
     find_manually_created_transcript := inr (manual_track fetched) |}.

Definition rick : pystr := u "dQw4w9WgXcQ".

(** No captions, a working audio path. *)
Definition sv_fallback : services :=
  demo (inl unavailable) (inr (Some demo_stream))
       (inr (u "never gonna give you up")).

(** Captions with a manual track. *)
Definition sv_captions : services :=
  demo (inr (listing_of (inr two_segments))) (inr (Some demo_stream))
       (inr (u "not asked for")).




(** No captions and no audio stream. *)
Definition sv_nothing : services :=
  demo (inl unavailable) (inr None) (inr (u "not asked for")).




(** As [sv_nothing], with a splitter that answers [None] with no chunk. *)
Definition sv_lenient : services :=
  {| list_transcripts := list_transcripts sv_nothing;
     getenv_TMPDIR := getenv_TMPDIR sv_nothing;
     makedirs := makedirs sv_nothing;
     new_YouTube := new_YouTube sv_nothing;
     os_system := os_system sv_nothing;
     transcribe := transcribe sv_nothing;
     split_text := fun _ _ text =>
       match text with None => inr [] | Some t => inr [t] end;
     chat_completions := chat_completions sv_nothing |}.

(** An encoder that fails and writes nothing. *)
Definition sv_stale : services :=
  {| list_transcripts := fun _ => inl unavailable;
     getenv_TMPDIR := None;
     makedirs := fun _ => inr tt;
     new_YouTube := fun _ => inr {| first_audio_stream := inr (Some demo_stream) |};
     os_system := fun _ fs => fs;
     transcribe := fun _ _ => inr (u "words of an earlier run");
     split_text := fun _ _ _ => inr [];
     chat_completions := fun _ => inr None |}.

Definition overloaded : exn := Exn LibraryError (u "Rate limit reached").

(** Captions with a manual track, and a generation backend that fails. *)
Definition sv_backend_down : services :=
  {| list_transcripts := list_transcripts sv_captions;
     getenv_TMPDIR := getenv_TMPDIR sv_captions;
     makedirs := makedirs sv_captions;
     new_YouTube := new_YouTube sv_captions;
     os_system := os_system sv_captions;
     transcribe := transcribe sv_captions;
     split_text := split_text sv_captions;
     chat_completions := fun _ => inl overloaded |}.

(** A host without [.env] file, whose client can be built. *)
Definition plain_host : host :=
  {| script_dir := u "/app";
     load_dotenv := fun _ environ => inr environ;
     new_OpenAI := fun _ _ => inr tt |}.



(** * Proofs *)

Arguments u : simpl never.

(** ** The matcher on the shapes of the five patterns *)

Section MatcherFacts.
Context {R : Type}.
Implicit Types (k : bool -> pystr -> option pystr -> option R).

Lemma rmatch_times_S n r k :
  rmatch (Times (S n) r) k = rmatch r (rmatch (Times n r) k).
Proof. reflexivity. Qed.

Lemma rmatch_class_cons p k bol c s g :
  rmatch (Class p) k bol (c :: s) g = if p c then k false s g else None.
Proof. reflexivity. Qed.

Lemma rmatch_group1 r k bol s g :
  rmatch (Group1 r) k bol s g =
  rmatch r (fun bol' s' _ => k bol' s' (Some (take (length s - length s') s)))
         bol s g.
Proof. reflexivity. Qed.

Lemma take_class_app p n s w :
  take_class p n s = Some w ->
  length w = n /\ forallb p w = true /\ s = w ++ drop n s.
Proof.
  revert s w. induction n as [|n IH]; intros s w; simpl.
  - intros [= <-]. by rewrite drop_0.
  - destruct s as [|c s]; [done|]. destruct (p c) eqn:Hc; [|done].
    destruct (take_class p n s) as [w'|] eqn:Hw; [|done].
    intros [= <-]. destruct (IH _ _ Hw) as (Hl & Hp & Hs).
    simpl. rewrite Hc, Hp, Hl. repeat split. by rewrite <- Hs.
Qed.

Lemma take_class_intro p w t :
  forallb p w = true -> take_class p (length w) (w ++ t) = Some w.
Proof.
  induction w as [|c w IH]; simpl; [done|].
  intros [Hc Hw]%andb_prop. by rewrite Hc, (IH Hw).
Qed.

Lemma rmatch_times_class p n k bol s g :
  rmatch (Times n (Class p)) k bol s g =
  match take_class p n s with
  | Some _ => k (match n with O => bol | S _ => false end) (drop n s) g
  | None => None
  end.
Proof.
  revert bol s. induction n as [|n IH]; intros bol s; [done|].
  rewrite rmatch_times_S. destruct s as [|c s]; [done|]. simpl take_class.
  rewrite rmatch_class_cons. destruct (p c); [|done]. rewrite IH.
  destruct (take_class p n s); [|done]. simpl. by destruct n.
Qed.

(** The group has captured the eleven characters when the rest of the
    pattern is tried. *)
Lemma rmatch_id11 k bol s g :
  rmatch id11 k bol s g =
  match take_class id_char 11 s with
  | Some w => k false (drop 11 s) (Some w)
  | None => None
  end.
Proof.
  unfold id11. rewrite rmatch_group1, rmatch_times_class.
  destruct (take_class id_char 11 s) as [w|] eqn:Hw; [|done].
  destruct (take_class_app _ _ _ _ Hw) as (Hl & _ & Hs).
  f_equal. f_equal. rewrite length_drop.
  assert (length s = (11 + length (drop 11 s))%nat) as Hlen.
  { rewrite Hs at 1. rewrite length_app. lia. }
  replace (length s - (length s - 11))%nat with (length w) by lia.
  transitivity (take (length w) (w ++ drop 11 s)); [by rewrite <- Hs|].
  apply take_app_length.
Qed.

Lemma rmatch_lit_cons c w k bol s g :
  rmatch (lit (c :: w)) k bol s g =
  match s with
  | c' :: s' => if c' =? c then rmatch (lit w) k false s' g else None
  | [] => None
  end.
Proof. destruct w; reflexivity. Qed.
End MatcherFacts.

Lemma star_class_total p bol s g :
  star_class p (fun _ _ g => Some {| capture := g |}) bol s g
  = Some {| capture := g |}.
Proof.
  revert bol. induction s as [|c s IH]; intros bol; simpl; [done|].
  destruct (p c); [|done]. by rewrite IH.
Qed.

Section MatcherEquations.
Context {R : Type}.
Implicit Types (k : bool -> pystr -> option pystr -> option R).

Lemma rmatch_cat r1 r2 k : rmatch (Cat r1 r2) k = rmatch r1 (rmatch r2 k).
Proof. reflexivity. Qed.

Lemma rmatch_or r1 r2 k bol s g :
  rmatch (Or r1 r2) k bol s g =
  match rmatch r1 k bol s g with
  | Some res => Some res
  | None => rmatch r2 k bol s g
  end.
Proof. reflexivity. Qed.

Lemma rmatch_star p k : rmatch (StarC p) k = star_class p k.
Proof. reflexivity. Qed.

Lemma rmatch_chr c k bol s g :
  rmatch (Chr c) k bol s g =
  match s with
  | c' :: s' => if c' =? c then k false s' g else None
  | [] => None
  end.
Proof. reflexivity. Qed.

Lemma rmatch_lit_Some w k bol s g x :
  rmatch (lit w) k bol s g = Some x ->
  exists t b, s = w ++ t /\ k b t g = Some x.
Proof.
  revert bol s. induction w as [|c w IH]; intros bol s; [by exists s, bol|].
  rewrite rmatch_lit_cons. destruct s as [|c' s]; [done|].
  destruct (N.eqb_spec c' c) as [->|]; [|done].
  intros (t & b & -> & Hk)%IH. by exists t, b.
Qed.

Lemma rmatch_lit_app w k bol t g :
  rmatch (lit w) k bol (w ++ t) g =
  k (match w with [] => bol | _ => false end) t g.
Proof.
  revert bol. induction w as [|c w IH]; intros bol; [done|].
  rewrite rmatch_lit_cons. simpl. rewrite N.eqb_refl, IH. by destruct w.
Qed.
End MatcherEquations.

Lemma match_here_standard bol s :
  match_here pat_standard bol s = found <$> standard_at s.
Proof.
  unfold match_here, pat_standard.
  change (lit (u "v=")) with (Cat (Chr 118) (Chr 61)).
  change (lit (u "/")) with (Chr 47).
  rewrite rmatch_cat, rmatch_or, !rmatch_cat, !rmatch_chr.
  destruct s as [|c s]; [done|]. cbn [standard_at].
  destruct (N.eqb_spec c 118) as [->|Hv].
  - rewrite rmatch_chr. destruct s as [|d s]; [done|].
    destruct (d =? 61); [|done].
    rewrite rmatch_id11. destruct (take_class id_char 11 s); [|done].
    by rewrite rmatch_star, star_class_total.
  - destruct (c =? 47); [|done].
    rewrite rmatch_id11. destruct (take_class id_char 11 s); [|done].
    by rewrite rmatch_star, star_class_total.
Qed.

(** ** Character classes *)

Lemma take_class_cons p n c s :
  take_class p (S n) (c :: s) =
  if p c then (c ::.) <$> take_class p n s else None.
Proof. reflexivity. Qed.

Arguments take_class : simpl never.

Lemma id_char_range c : id_char c = true -> 45 <= c <= 122.
Proof.
  unfold id_char.
  rewrite !orb_true_iff, !andb_true_iff, !N.leb_le, !N.eqb_eq. lia.
Qed.

Lemma is_space_range c : is_space c = true -> c <= 32 \/ 133 <= c.
Proof.
  unfold is_space.
  rewrite !orb_true_iff, !andb_true_iff, !N.leb_le, !N.eqb_eq. lia.
Qed.

Lemma id_char_not_space c : id_char c = true -> is_space c = false.
Proof.
  intros H%id_char_range. destruct (is_space c) eqn:Hs; [|done].
  apply is_space_range in Hs. lia.
Qed.

Lemma is_video_id_spec w :
  is_video_id w = true <-> length w = 11%nat /\ forallb id_char w = true.
Proof.
  unfold is_video_id. rewrite andb_true_iff, Nat.eqb_eq. tauto.
Qed.

Lemma take_class_video_id s w :
  take_class id_char 11 s = Some w -> is_video_id w = true.
Proof.
  intros (Hl & Hp & _)%take_class_app. by apply is_video_id_spec.
Qed.

Lemma video_id_take_class w t :
  is_video_id w = true -> take_class id_char 11 (w ++ t) = Some w.
Proof.
  intros [Hl Hp]%is_video_id_spec. rewrite <- Hl. by apply take_class_intro.
Qed.

(** ** [re.search] with the first pattern *)

Lemma search_standard_hit bol s i :
  standard_at s = Some i -> search_from pat_standard bol s = Some (found i).
Proof.
  intros H. destruct s; cbn [search_from]; by rewrite match_here_standard, H.
Qed.

Lemma search_standard_skip bol c s :
  standard_at (c :: s) = None ->
  search_from pat_standard bol (c :: s) = search_from pat_standard false s.
Proof. intros H. cbn [search_from]. by rewrite match_here_standard, H. Qed.

Lemma search_standard_bol bol s :
  search_from pat_standard bol s = search_from pat_standard false s.
Proof. destruct s; cbn [search_from]; by rewrite !match_here_standard. Qed.

(** The leftmost place where the pattern matches decides. *)
Lemma search_standard_first bol a t i :
  (forall n, (n < length a)%nat -> standard_at (drop n (a ++ t)) = None) ->
  standard_at t = Some i ->
  search_from pat_standard bol (a ++ t) = Some (found i).
Proof.
  revert bol. induction a as [|c a IH]; intros bol Ha Ht.
  - by apply search_standard_hit.
  - simpl app. rewrite search_standard_skip.
    + apply IH; [|done]. intros n Hn. apply (Ha (S n)). simpl. lia.
    + apply (Ha 0%nat). simpl. lia.
Qed.

Lemma search_standard_some bol s n i :
  standard_at (drop n s) = Some i ->
  exists i' k, search_from pat_standard bol s = Some (found i')
               /\ standard_at (drop k s) = Some i' /\ (k <= n)%nat.
Proof.
  revert bol s. induction n as [|n IH]; intros bol s H.
  - exists i, 0%nat. rewrite drop_0 in H. split; [by apply search_standard_hit|].
    by rewrite drop_0.
  - destruct (standard_at s) as [i0|] eqn:H0.
    + exists i0, 0%nat. split; [by apply search_standard_hit|].
      rewrite drop_0. split; [done|lia].
    + destruct s as [|c s]; [done|]. simpl in H.
      destruct (IH false s H) as (i' & k & Hs & Hk & Hle).
      exists i', (S k). rewrite search_standard_skip by done.
      split; [done|]. split; [done|lia].
Qed.

Lemma search_standard_none bol s :
  search_from pat_standard bol s = None <->
  forall n, standard_at (drop n s) = None.
Proof.
  split.
  - intros H n. destruct (standard_at (drop n s)) as [i|] eqn:Hn; [|done].
    destruct (search_standard_some bol s n i Hn) as (i' & k & Hs & _).
    congruence.
  - revert bol. induction s as [|c s IH]; intros bol H.
    + cbn [search_from]. by rewrite match_here_standard.
    + rewrite search_standard_skip by apply (H 0%nat).
      apply IH. intros n. apply (H (S n)).
Qed.

(** Where the first pattern can match: at [v=] or at [/]. *)
Lemma standard_at_some s i :
  standard_at s = Some i <->
  exists sep b, s = sep ++ i ++ b /\ (sep = u "v=" \/ sep = u "/")
                /\ is_video_id i = true.
Proof.
  split.
  - destruct s as [|c s]; [done|]. cbn [standard_at].
    destruct (N.eqb_spec c 118) as [->|_].
    + destruct s as [|d s]; [done|]. destruct (N.eqb_spec d 61) as [->|_]; [|done].
      intros H. exists (u "v="), (drop 11 s).
      destruct (take_class_app _ _ _ _ H) as (_ & _ & Hs).
      split; [|split; [by left|by eapply take_class_video_id]].
      change (u "v=" ++ i ++ drop 11 s) with (118 :: 61 :: i ++ drop 11 s).
      by rewrite <- Hs.
    + destruct (N.eqb_spec c 47) as [->|_]; [|done].
      intros H. exists (u "/"), (drop 11 s).
      destruct (take_class_app _ _ _ _ H) as (_ & _ & Hs).
      split; [|split; [by right|by eapply take_class_video_id]].
      change (u "/" ++ i ++ drop 11 s) with (47 :: i ++ drop 11 s).
      by rewrite <- Hs.
  - intros (sep & b & -> & [-> | ->] & Hi).
    + change (u "v=" ++ i ++ b) with (118 :: 61 :: i ++ b).
      cbn [standard_at]. rewrite !N.eqb_refl. by apply video_id_take_class.
    + change (u "/" ++ i ++ b) with (47 :: i ++ b).
      cbn [standard_at]. change (47 =? 118) with false. cbn iota.
      rewrite N.eqb_refl. by apply video_id_take_class.
Qed.

(** ** [strip] *)

Lemma lstrip_spaces l s : forallb is_space l = true -> lstrip (l ++ s) = lstrip s.
Proof.
  induction l as [|c l IH]; simpl; [done|].
  intros [Hc Hl]%andb_prop. rewrite Hc. by apply IH.
Qed.

Lemma lstrip_head c s : is_space c = false -> lstrip (c :: s) = c :: s.
Proof. intros H. simpl. by rewrite H. Qed.

Lemma rstrip_snoc s c :
  rstrip (s ++ [c]) = if is_space c then rstrip s else s ++ [c].
Proof.
  unfold rstrip. rewrite rev_app_distr. simpl.
  destruct (is_space c); [done|]. simpl. by rewrite rev_involutive.
Qed.

Lemma rstrip_spaces s r : forallb is_space r = true -> rstrip (s ++ r) = rstrip s.
Proof.
  revert s. induction r as [|c r IH] using rev_ind; intros s H.
  - by rewrite app_nil_r.
  - rewrite forallb_app in H. apply andb_prop in H as [Hr Hc].
    simpl in Hc. rewrite andb_true_r in Hc.
    rewrite app_assoc, rstrip_snoc, Hc. by apply IH.
Qed.

Lemma strip_padded l w r :
  forallb is_space l = true -> forallb is_space r = true ->
  is_video_id w = true -> strip (l ++ w ++ r) = w.
Proof.
  intros Hl Hr [Hlen Hw]%is_video_id_spec. unfold strip.
  rewrite app_assoc, rstrip_spaces by done.
  destruct w as [|c w _] using rev_ind; [done|].
  rewrite forallb_app in Hw. apply andb_prop in Hw as [Hw Hc].
  simpl in Hc. rewrite andb_true_r in Hc.
  rewrite app_assoc, rstrip_snoc, (id_char_not_space _ Hc).
  rewrite <- app_assoc, lstrip_spaces by done.
  destruct w as [|d w]; simpl.
  - by rewrite (id_char_not_space _ Hc).
  - simpl in Hw. apply andb_prop in Hw as [Hd _].
    by rewrite (id_char_not_space _ Hd).
Qed.

(** Stripping does not move what the first pattern finds. *)
Lemma standard_at_snoc_space s c :
  is_space c = true -> standard_at (s ++ [c]) = standard_at s.
Proof.
  intros Hc.
  assert (id_char c = false) as Hid.
  { destruct (id_char c) eqn:E; [|done].
    apply id_char_not_space in E. congruence. }
  assert (forall n t, take_class id_char n (t ++ [c]) = take_class id_char n t)
    as Htake.
  { induction n as [|n IH]; intros t; [done|].
    destruct t as [|d t]; cbn [app]; rewrite take_class_cons.
    - by rewrite Hid.
    - rewrite take_class_cons. destruct (id_char d); [|done]. by rewrite IH. }
  assert (c <> 118 /\ c <> 47 /\ c <> 61) as (Hv & Hs & He).
  { apply is_space_range in Hc. lia. }
  destruct s as [|d s]; simpl.
  - destruct (N.eqb_spec c 118); [done|]. by destruct (N.eqb_spec c 47).
  - destruct (d =? 118).
    + destruct s as [|e s]; simpl; [by destruct (N.eqb_spec c 61)|].
      destruct (e =? 61); [apply Htake|done].
    + destruct (d =? 47); [apply Htake|done].
Qed.

Lemma search_standard_snoc_space bol s c :
  is_space c = true ->
  search_from pat_standard bol (s ++ [c]) = search_from pat_standard bol s.
Proof.
  intros Hc. revert bol. induction s as [|d s IH]; intros bol.
  - cbn [search_from app]. rewrite !match_here_standard.
    change (standard_at [c]) with (standard_at ([] ++ [c])).
    by rewrite standard_at_snoc_space.
  - cbn [search_from app]. rewrite !match_here_standard.
    change (d :: s ++ [c]) with ((d :: s) ++ [c]).
    rewrite standard_at_snoc_space by done.
    destruct (standard_at (d :: s)); [done|]. apply IH.
Qed.

Lemma search_standard_lstrip bol s :
  search_from pat_standard bol (lstrip s) = search_from pat_standard bol s.
Proof.
  revert bol. induction s as [|c s IH]; intros bol; [done|].
  cbn [lstrip]. destruct (is_space c) eqn:Hc; [|done].
  rewrite IH, (search_standard_bol bol), (search_standard_bol bol (c :: s)).
  rewrite search_standard_skip; [done|].
  apply is_space_range in Hc. cbn [standard_at].
  destruct (N.eqb_spec c 118); [lia|]. destruct (N.eqb_spec c 47); [lia|done].
Qed.

Lemma search_standard_rstrip bol s :
  search_from pat_standard bol (rstrip s) = search_from pat_standard bol s.
Proof.
  induction s as [|c s IH] using rev_ind; [done|].
  rewrite rstrip_snoc. destruct (is_space c) eqn:Hc; [|done].
  by rewrite IH, search_standard_snoc_space.
Qed.

Lemma search_standard_strip s :
  re_search pat_standard (strip s) = re_search pat_standard s.
Proof.
  unfold re_search, strip.
  by rewrite search_standard_lstrip, search_standard_rstrip.
Qed.

(** ** The other four patterns *)

Lemma search_from_some r bol s m :
  search_from r bol s = Some m ->
  exists n b, match_here r b (drop n s) = Some m.
Proof.
  revert bol. induction s as [|c s IH]; intros bol; cbn [search_from].
  - destruct (match_here r bol []) eqn:H; [|done].
    intros [= <-]. by exists 0%nat, bol.
  - destruct (match_here r bol (c :: s)) eqn:H.
    + intros [= <-]. by exists 0%nat, bol.
    + intros (n & b & Hn)%IH. by exists (S n), b.
Qed.

Lemma search_from_none r bol s :
  (forall n b, match_here r b (drop n s) = None) -> search_from r bol s = None.
Proof.
  revert bol. induction s as [|c s IH]; intros bol H; cbn [search_from];
    pose proof (H 0%nat bol) as H0; rewrite drop_0 in H0; rewrite H0; [done|].
  apply IH. intros n b. apply (H (S n) b).
Qed.

Lemma match_here_lit_id11 w bol s m :
  match_here (Cat (lit w) id11) bol s = Some m ->
  exists i t, s = w ++ i ++ t /\ m = found i /\ is_video_id i = true.
Proof.
  unfold match_here. rewrite rmatch_cat.
  intros (t & b & -> & H)%rmatch_lit_Some. rewrite rmatch_id11 in H.
  destruct (take_class id_char 11 t) as [i|] eqn:Hi; [|done].
  injection H as <-. exists i, (drop 11 t).
  destruct (take_class_app _ _ _ _ Hi) as (_ & _ & Ht).
  split; [by rewrite <- Ht|]. split; [done|by eapply take_class_video_id].
Qed.

Lemma match_here_bare bol s m :
  match_here pat_bare bol s = Some m ->
  bol = true /\ exists i, m = found i /\ is_video_id i = true
                         /\ (s = i \/ s = i ++ [10]).
Proof.
  unfold match_here, pat_bare. rewrite !rmatch_cat. cbn [rmatch].
  destruct bol; [|done]. rewrite rmatch_id11.
  destruct (take_class id_char 11 s) as [i|] eqn:Hi; [|done].
  destruct (take_class_app _ _ _ _ Hi) as (_ & _ & Hs).
  pose proof (take_class_video_id _ _ Hi) as Hid.
  cbn [rmatch]. destruct (drop 11 s) as [|c [|d t]] eqn:Hd; [| |done].
  - intros [= <-]. split; [done|]. exists i. rewrite app_nil_r in Hs. auto.
  - destruct (N.eqb_spec c 10) as [->|]; [|done].
    intros [= <-]. split; [done|]. exists i. auto.
Qed.

Lemma match_here_bare_id i :
  is_video_id i = true -> match_here pat_bare true i = Some (found i).
Proof.
  intros Hi. unfold match_here, pat_bare. rewrite !rmatch_cat. cbn [rmatch].
  rewrite rmatch_id11.
  pose proof (video_id_take_class i [] Hi) as Ht. rewrite app_nil_r in Ht.
  rewrite Ht. apply is_video_id_spec in Hi as [Hl _].
  by rewrite drop_ge by lia.
Qed.

(** Every pattern captures an id when it matches. *)
Lemma patterns_capture p s m :
  p ∈ patterns -> re_search p s = Some m ->
  exists i, m = found i /\ is_video_id i = true.
Proof.
  unfold patterns, re_search. rewrite !elem_of_cons, elem_of_nil.
  intros Hp (n & b & Hm)%search_from_some.
  destruct Hp as [-> | [-> | [-> | [-> | [-> | []]]]]].
  - rewrite match_here_standard in Hm.
    destruct (standard_at (drop n s)) as [i|] eqn:Hi; [|done].
    injection Hm as <-. exists i. split; [done|].
    apply standard_at_some in Hi as (_ & _ & _ & _ & Hi). done.
  - apply match_here_lit_id11 in Hm as (i & _ & _ & -> & Hi). eauto.
  - apply match_here_lit_id11 in Hm as (i & _ & _ & -> & Hi). eauto.
  - apply match_here_lit_id11 in Hm as (i & _ & _ & -> & Hi). eauto.
  - apply match_here_bare in Hm as (_ & i & -> & Hi & _). eauto.
Qed.

(** None of the first four patterns matches inside an id: they need a
    [/] or a [=]. *)
Lemma id_chars_no_standard bol w :
  forallb id_char w = true -> search_from pat_standard bol w = None.
Proof.
  intros Hw. apply search_standard_none. intros n.
  destruct (standard_at (drop n w)) as [i|] eqn:Hi; [|done].
  apply standard_at_some in Hi as (sep & b & Hd & Hsep & _).
  assert (exists c, c ∈ drop n w /\ id_char c = false) as (c & Hc & Hf).
  { rewrite Hd. destruct Hsep as [-> | ->].
    - exists 61. split; [|done]. change (u "v=") with [118; 61].
      set_solver.
    - exists 47. split; [|done]. change (u "/") with [47]. set_solver. }
  rewrite forallb_forall in Hw.
  assert (c ∈ w) as Hin.
  { apply list_elem_of_In. rewrite <- (take_drop n w).
    apply in_or_app. right. by apply list_elem_of_In. }
  apply list_elem_of_In, Hw in Hin. congruence.
Qed.

Lemma id_chars_no_lit bol w l :
  47 ∈ l -> forallb id_char w = true ->
  search_from (Cat (lit l) id11) bol w = None.
Proof.
  intros Hl Hw. apply search_from_none. intros n b.
  destruct (match_here (Cat (lit l) id11) b (drop n w)) as [m|] eqn:Hm; [|done].
  apply match_here_lit_id11 in Hm as (i & t & Hd & _).
  rewrite forallb_forall in Hw.
  assert (47 ∈ w) as Hin.
  { apply list_elem_of_In. rewrite <- (take_drop n w), Hd.
    apply in_or_app. right. apply in_or_app. left. by apply list_elem_of_In. }
  apply list_elem_of_In, Hw in Hin. done.
Qed.

(** ** The loop over the patterns *)

Lemma first_match_order ps s n p m :
  ps !! n = Some p -> re_search p s = Some m ->
  (forall j q, (j < n)%nat -> ps !! j = Some q -> re_search q s = None) ->
  first_match ps s = inr (group1 m).
Proof.
  revert n. induction ps as [|q ps IH]; intros n Hn Hm Hj; [done|].
  destruct n as [|n]; cbn [first_match].
  - injection Hn as ->. by rewrite Hm.
  - rewrite (Hj 0%nat q) by (done || lia).
    apply (IH n); [done|done|]. intros j q' Hlt Hq.
    apply (Hj (S j) q'); [lia|done].
Qed.

Lemma first_match_none ps s :
  (forall p, p ∈ ps -> re_search p s = None) -> first_match ps s = inl invalid_url.
Proof.
  induction ps as [|q ps IH]; intros H; [done|]. cbn [first_match].
  rewrite H by set_solver. apply IH. intros p Hp. apply H. set_solver.
Qed.

Lemma extract_standard s i :
  re_search pat_standard s = Some (found i) -> extract_video_id s = inr i.
Proof.
  intros H. unfold extract_video_id, patterns. cbn [first_match].
  by rewrite search_standard_strip, H.
Qed.

Lemma extract_bare l i r :
  forallb is_space l = true -> forallb is_space r = true ->
  is_video_id i = true -> extract_video_id (l ++ i ++ r) = inr i.
Proof.
  intros Hl Hr Hi. unfold extract_video_id. rewrite strip_padded by done.
  pose proof Hi as [_ Hw]%is_video_id_spec.
  unfold patterns. cbn [first_match]. unfold re_search.
  rewrite id_chars_no_standard by done.
  unfold pat_embed, pat_short, pat_shorts.
  rewrite !id_chars_no_lit by (done || (vm_compute; set_solver)).
  destruct i as [|c i]; [done|]. cbn [search_from].
  by rewrite match_here_bare_id.
Qed.

(** The prefix of a recognized URL holds no earlier match. *)
Ltac no_early_match :=
  let n := fresh "n" in
  let Hn := fresh "Hn" in
  intros n Hn;
  repeat (destruct n as [|n]; [reflexivity|]);
  vm_compute in Hn; lia.

Lemma extract_after_prefix a sep i rest :
  (forall n, (n < length a)%nat ->
     standard_at (drop n (a ++ sep ++ i ++ rest)) = None) ->
  sep = u "v=" \/ sep = u "/" -> is_video_id i = true ->
  extract_video_id (a ++ sep ++ i ++ rest) = inr i.
Proof.
  intros Ha Hsep Hi. apply extract_standard. unfold re_search.
  apply search_standard_first; [done|].
  apply standard_at_some. by exists sep, rest.
Qed.

(** Literals as lists of code points. *)
Ltac norm_lits :=
  repeat match goal with
         | |- context [u ?s] =>
           let x := eval vm_compute in (u s) in change (u s) with x
         end.

Lemma extract_watch i rest :
  is_video_id i = true ->
  extract_video_id (u "https://www.youtube.com/watch?v=" ++ i ++ rest) = inr i.
Proof.
  intros Hi.
  change (u "https://www.youtube.com/watch?v=" ++ i ++ rest)
    with (u "https://www.youtube.com/watch?" ++ u "v=" ++ i ++ rest).
  apply extract_after_prefix; [norm_lits; no_early_match|by left|done].
Qed.

Lemma extract_embed i rest :
  is_video_id i = true ->
  extract_video_id (u "https://www.youtube.com/embed/" ++ i ++ rest) = inr i.
Proof.
  intros Hi.
  change (u "https://www.youtube.com/embed/" ++ i ++ rest)
    with (u "https://www.youtube.com/embed" ++ u "/" ++ i ++ rest).
  apply extract_after_prefix; [norm_lits; no_early_match|by right|done].
Qed.

Lemma extract_short i rest :
  is_video_id i = true ->
  extract_video_id (u "https://youtu.be/" ++ i ++ rest) = inr i.
Proof.
  intros Hi.
  change (u "https://youtu.be/" ++ i ++ rest)
    with (u "https://youtu.be" ++ u "/" ++ i ++ rest).
  apply extract_after_prefix; [norm_lits; no_early_match|by right|done].
Qed.

Lemma extract_shorts i rest :
  is_video_id i = true ->
  extract_video_id (u "https://www.youtube.com/shorts/" ++ i ++ rest) = inr i.
Proof.
  intros Hi.
  change (u "https://www.youtube.com/shorts/" ++ i ++ rest)
    with (u "https://www.youtube.com/shorts" ++ u "/" ++ i ++ rest).
  apply extract_after_prefix; [norm_lits; no_early_match|by right|done].
Qed.

(** ** When no pattern matches *)

Lemma search_from_later r bol s m :
  search_from r bol s = Some m ->
  match_here r bol s = Some m
  \/ exists n, match_here r false (drop (S n) s) = Some m.
Proof.
  revert bol. induction s as [|c s IH]; intros bol; cbn [search_from].
  - destruct (match_here r bol []); [by left|done].
  - destruct (match_here r bol (c :: s)); [by left|].
    intros [H | [n H]]%IH; right; [by exists 0%nat|by exists (S n)].
Qed.

Lemma rstrip_end s t c : rstrip s = t ++ [c] -> is_space c = false.
Proof.
  induction s as [|d s IH] using rev_ind.
  - by destruct t.
  - rewrite rstrip_snoc. destruct (is_space d) eqn:Hd; [done|].
    intros [_ [= <-]]%app_inj_tail. done.
Qed.

Lemma lstrip_end s t c : lstrip s = t ++ [c] -> exists t', s = t' ++ [c].
Proof.
  induction s as [|d s IH]; cbn [lstrip]; [by destruct t|].
  destruct (is_space d).
  - intros [t' ->]%IH. by exists (d :: t').
  - intros ->. by exists t.
Qed.

Lemma strip_end s t c : strip s = t ++ [c] -> is_space c = false.
Proof. unfold strip. intros [t' H]%lstrip_end. by eapply rstrip_end. Qed.

(** A match of one of the three middle patterns holds a match of the
    first: they end with the [/] that the first one looks for. *)
Lemma lit_match_standard w s n b m :
  match_here (Cat (lit (w ++ [47])) id11) b (drop n s) = Some m ->
  exists k, standard_at (drop k s) <> None.
Proof.
  intros (i & t & Hd & _ & Hi)%match_here_lit_id11.
  exists (n + length w)%nat. rewrite <- drop_drop, Hd, <- !app_assoc.
  rewrite drop_app_length.
  assert (standard_at ([47] ++ i ++ t) = Some i) as ->; [|done].
  apply standard_at_some. exists (u "/"), t. auto.
Qed.

(** No pattern finds an id exactly when no [v=] or [/] is followed by
    eleven characters of the class anywhere in the input and the stripped
    input is not such a string itself. *)
Lemma no_pattern_iff s :
  (forall p, p ∈ patterns -> re_search p (strip s) = None)
  <-> (forall n, standard_at (drop n s) = None)
      /\ is_video_id (strip s) = false.
Proof.
  assert (re_search pat_standard (strip s) = None
          <-> forall n, standard_at (drop n s) = None) as Hstd.
  { rewrite search_standard_strip. apply search_standard_none. }
  assert (forall n, (forall n, standard_at (drop n s) = None) ->
                    standard_at (drop n (strip s)) = None) as Hstrip.
  { intros n H. apply Hstd in H. unfold re_search in H.
    by apply (proj1 (search_standard_none true (strip s))). }
  split.
  - intros H. split.
    + apply Hstd, H. set_solver.
    + destruct (is_video_id (strip s)) eqn:Hid; [|done].
      assert (re_search pat_bare (strip s) = None) as Hb by (apply H; set_solver).
      unfold re_search in Hb. destruct (strip s) as [|c t]; [done|].
      cbn [search_from] in Hb. by rewrite match_here_bare_id in Hb.
  - intros [Hno Hid] p. unfold patterns. rewrite !elem_of_cons, elem_of_nil.
    intros [-> | [-> | [-> | [-> | [-> | []]]]]].
    + by apply Hstd.
    + destruct (re_search pat_embed (strip s)) as [m|] eqn:Hm; [|done].
      apply search_from_some in Hm as (n & b & Hm).
      apply (lit_match_standard (u "embed")) in Hm as [k Hk].
      by rewrite Hstrip in Hk.
    + destruct (re_search pat_short (strip s)) as [m|] eqn:Hm; [|done].
      apply search_from_some in Hm as (n & b & Hm).
      apply (lit_match_standard (u "youtu.be")) in Hm as [k Hk].
      by rewrite Hstrip in Hk.
    + destruct (re_search pat_shorts (strip s)) as [m|] eqn:Hm; [|done].
      apply search_from_some in Hm as (n & b & Hm).
      apply (lit_match_standard (u "shorts")) in Hm as [k Hk].
      by rewrite Hstrip in Hk.
    + destruct (re_search pat_bare (strip s)) as [m|] eqn:Hm; [|done].
      apply search_from_later in Hm as [Hm | [n Hm]].
      * apply match_here_bare in Hm as (_ & i & _ & Hi & [E | E]).
        -- congruence.
        -- apply strip_end in E. done.
      * by apply match_here_bare in Hm as [[=] _].
Qed.

Lemma first_match_inl ps s e :
  first_match ps s = inl e -> forall p, p ∈ ps -> re_search p s = None.
Proof.
  induction ps as [|q ps IH]; cbn [first_match]; [set_solver|].
  destruct (re_search q s) eqn:Hq; [done|].
  intros H p [-> | Hp]%elem_of_cons; [done|by apply IH].
Qed.

(** X5. [extract_video_id] raises its [ValueError] exactly when nowhere in
    the input [v=] or a slash is followed by eleven characters of the class,
    and the input without the white space around it is not eleven such
    characters itself. *)
Lemma extract_video_id_raises_iff s :
  extract_video_id s = inl invalid_url
  <-> (forall n, standard_at (drop n s) = None)
      /\ is_video_id (strip s) = false.
Proof.
  rewrite <- no_pattern_iff. split.
  - apply first_match_inl.
  - apply first_match_none.
Qed.

(** ** Claims about [extract_video_id] *)

(** C3, as amended. Let [i] be eleven characters of the class
    [[0-9A-Za-z_-]] of the patterns (which has no [.]). If [i] stands in the
    input in the shape of one of the first four patterns, that is right
    after [v=], a slash, [embed/], [youtu.be/] or [shorts/], with anything
    before and after, and nowhere before that place [v=] or a slash is
    followed by eleven characters of the class, then [extract_video_id]
    returns exactly [i]. If the input is [i] alone, with white space around
    it, [extract_video_id] returns [i]. The links of the site itself
    ([recognized]) are returned their id whatever the id is. And whenever
    a pattern matches and none before it in the list does, that pattern's
    group is the result, whatever the later patterns would capture. *)
Theorem extract_video_id_recognized :
  (forall a pre mark i b,
     (pre, mark) ∈ url_shapes -> is_video_id i = true ->
     (forall n, (n < length (a ++ pre))%nat ->
        standard_at (drop n (a ++ pre ++ mark ++ i ++ b)) = None) ->
     extract_video_id (a ++ pre ++ mark ++ i ++ b) = inr i)
  /\ (forall l i r,
        is_video_id i = true ->
        forallb is_space l = true -> forallb is_space r = true ->
        extract_video_id (l ++ i ++ r) = inr i)
  /\ (forall url i,
        is_video_id i = true -> recognized url i -> extract_video_id url = inr i)
  /\ (forall s n p m,
        patterns !! n = Some p -> re_search p (strip s) = Some m ->
        (forall j q, (j < n)%nat -> patterns !! j = Some q ->
                     re_search q (strip s) = None) ->
        extract_video_id s = inr (group1 m)).
Proof.
  split; [|split; [|split]].
  - intros a pre mark i b Hshape Hi Hfirst.
    assert (mark = u "v=" \/ mark = u "/") as Hmark.
    { unfold url_shapes in Hshape.
      rewrite !elem_of_cons, elem_of_nil in Hshape.
      destruct Hshape as [[= _ ->] | [[= _ ->] | [[= _ ->] | [[= _ ->]
                         | [[= _ ->] | []]]]]]; auto. }
    rewrite (app_assoc a pre) in *. by apply extract_after_prefix.
  - intros l i r Hi Hl Hr. by apply extract_bare.
  - intros url i Hi Hr. destruct Hr.
    + by apply extract_watch.
    + by apply extract_embed.
    + by apply extract_short.
    + by apply extract_shorts.
    + by apply extract_bare.
  - intros s n p m Hp Hm Hj. by apply (first_match_order patterns _ n p).
Qed.

(** C3 at concrete inputs: a watch link of the mobile site over http, an
    embed link of another host, a short link of the site, and a string in
    which the first and the second pattern capture different ids. *)
Lemma extract_video_id_recognized_witness :
  extract_video_id
    (u "http://m.youtube.com/watch?" ++ [] ++ u "v=" ++ u "dQw4w9WgXcQ"
     ++ u "&t=42")
  = inr (u "dQw4w9WgXcQ")
  /\ extract_video_id
       (u "https://www.youtube-nocookie.com/" ++ u "embed" ++ u "/"
        ++ u "dQw4w9WgXcQ" ++ u "?rel=0")
     = inr (u "dQw4w9WgXcQ")
  /\ extract_video_id (u "https://youtu.be/" ++ u "dQw4w9WgXcQ" ++ u "?t=42")
     = inr (u "dQw4w9WgXcQ")
  /\ re_search pat_embed
       (strip (u "https://youtu.be/abcdefghijk/embed/ABCDEFGHIJK"))
     = Some (found (u "ABCDEFGHIJK"))
  /\ extract_video_id (u "https://youtu.be/abcdefghijk/embed/ABCDEFGHIJK")
     = inr (group1 (found (u "abcdefghijk"))).
Proof.
  destruct extract_video_id_recognized as (Hshape & _ & Hsite & Horder).
  split; [|split; [|split; [|split]]].
  - apply Hshape.
    + unfold url_shapes. apply list_elem_of_here.
    + reflexivity.
    + norm_lits. no_early_match.
  - apply Hshape.
    + unfold url_shapes. do 2 apply list_elem_of_further.
      apply list_elem_of_here.
    + reflexivity.
    + norm_lits. no_early_match.
  - apply Hsite; [reflexivity|apply Short_url].
  - vm_compute. reflexivity.
  - apply (Horder _ 0%nat pat_standard).
    + reflexivity.
    + vm_compute. reflexivity.
    + intros j q Hj. lia.
Defined.

(** C3 as stated fails twice. An id with a [.] is an id of the
    specification's alphabet, the short link around it is a recognized
    shape, and [extract_video_id] raises. And an id of the class in the
    shape of the embed pattern is not returned when a slash and eleven
    characters of the class come earlier: the first pattern answers with a
    piece of the host name. *)
Lemma extract_video_id_dot_rejected :
  is_spec_id (u "dQw4w9.gXcQ") = true
  /\ recognized (u "https://youtu.be/" ++ u "dQw4w9.gXcQ" ++ []) (u "dQw4w9.gXcQ")
  /\ extract_video_id (u "https://youtu.be/" ++ u "dQw4w9.gXcQ" ++ [])
     = inl invalid_url
  /\ (u "embed", u "/") ∈ url_shapes
  /\ is_spec_id (u "dQw4w9WgXcQ") = true
  /\ is_video_id (u "dQw4w9WgXcQ") = true
  /\ extract_video_id
       (u "https://youtube-nocookie.com/" ++ u "embed" ++ u "/"
        ++ u "dQw4w9WgXcQ" ++ [])
     = inr (u "youtube-noc").
Proof.
  split; [reflexivity|]. split; [apply Short_url|].
  split; [vm_compute; reflexivity|].
  split. { unfold url_shapes. do 2 apply list_elem_of_further.
           apply list_elem_of_here. }
  split; [reflexivity|]. split; [reflexivity|]. vm_compute. reflexivity.
Qed.

(** C8. When none of the five patterns finds an id in the stripped input,
    [extract_video_id] raises the [ValueError] of its last line; it returns
    no value. *)
Theorem extract_video_id_invalid s :
  (forall p, p ∈ patterns -> re_search p (strip s) = None) ->
  extract_video_id s = inl invalid_url
  /\ exn_class_of invalid_url = ValueError
  /\ forall i, extract_video_id s <> inr i.
Proof.
  intros H. assert (extract_video_id s = inl invalid_url) as E.
  { by apply first_match_none. }
  rewrite E. done.
Qed.

Lemma extract_video_id_invalid_witness :
  extract_video_id (u "not a video link") = inl invalid_url
  /\ exn_class_of invalid_url = ValueError
  /\ forall i, extract_video_id (u "not a video link") <> inr i.
Proof.
  apply extract_video_id_invalid. intros p.
  unfold patterns. rewrite !elem_of_cons, elem_of_nil.
  intros [-> | [-> | [-> | [-> | [-> | []]]]]]; vm_compute; reflexivity.
Defined.

(** C9. The patterns are searched anywhere in the input: whenever [v=] or
    [/] is followed by eleven characters of the class, whatever stands
    before and after, [extract_video_id] returns an id and does not raise;
    it returns those eleven characters when no such place comes earlier in
    the input. A URL of an unrelated domain, which is none of the five
    recognized shapes for any id, is answered with a piece of its path. *)
Theorem extract_video_id_unanchored :
  (forall a sep i b,
     sep = u "v=" \/ sep = u "/" -> is_video_id i = true ->
     (exists i', extract_video_id (a ++ sep ++ i ++ b) = inr i'
                 /\ is_video_id i' = true)
     /\ ((forall n, (n < length a)%nat ->
            standard_at (drop n (a ++ sep ++ i ++ b)) = None) ->
         extract_video_id (a ++ sep ++ i ++ b) = inr i))
  /\ extract_video_id (u "https://example.com/abcdefghijk")
     = inr (u "abcdefghijk")
  /\ (forall i, is_video_id i = true ->
                ~ recognized (u "https://example.com/abcdefghijk") i).
Proof.
  split; [|split].
  - intros a sep i b Hsep Hi. split.
    + assert (standard_at (drop (length a) (a ++ sep ++ i ++ b)) = Some i) as H.
      { rewrite drop_app_length. apply standard_at_some. by exists sep, b. }
      destruct (search_standard_some true _ _ _ H) as (i' & k & Hs & Hk & _).
      exists i'. split; [by apply extract_standard|].
      by apply standard_at_some in Hk as (_ & _ & _ & _ & Hi').
    + intros Ha. by apply extract_after_prefix.
  - vm_compute. reflexivity.
  - intros i Hi Hr. inversion Hr as [| | | |i' l r Hl Hrs E]. subst i'.
    apply is_video_id_spec in Hi as [Hlen Hw].
    destruct l as [|c l].
    + do 11 (destruct i as [|? i]; [discriminate Hlen|]).
      vm_compute in E. injection E as -> -> -> -> -> ->.
      vm_compute in Hw. discriminate Hw.
    + vm_compute in E. injection E as -> _. discriminate Hl.
Qed.

Lemma extract_video_id_unanchored_witness :
  (exists i', extract_video_id
                (u "https://vimeo.com/channels" ++ u "/" ++ u "staffpicks1" ++ u "/9")
              = inr i' /\ is_video_id i' = true)
  /\ extract_video_id
       (u "https://vimeo.com/channels" ++ u "/" ++ u "staffpicks1" ++ u "/9")
     = inr (u "staffpicks1").
Proof.
  destruct (proj1 extract_video_id_unanchored
              (u "https://vimeo.com/channels") (u "/") (u "staffpicks1") (u "/9"))
    as [H1 H2]; [by right|reflexivity|].
  split; [exact H1|]. apply H2. norm_lits. no_early_match.
Defined.

(** ** Runs

    [mrun] computes a run as far as the answers of the services allow,
    [destruct_stuck] asks for the next answer. *)

Ltac mrun :=
  cbv beta iota zeta delta
    [bind ret raise emit lift try_except try_finally call ext st
     path_exists os_remove open_rb res files log].

Ltac destruct_stuck :=
  match goal with
  | |- context [match ?x with _ => _ end] =>
      lazymatch x with
      | context [match _ with _ => _ end] => fail
      | _ => destruct x eqn:?
      end
  end.

Ltac crunch := mrun; repeat (destruct_stuck; mrun).

Lemma count_app p l1 l2 : count p (l1 ++ l2) = (count p l1 + count p l2)%nat.
Proof. induction l1 as [|e l1 IH]; simpl; [done|]. rewrite IH. lia. Qed.

Lemma count_none p l : Forall (fun e => p e = false) l -> count p l = 0%nat.
Proof. induction 1 as [|e l He _ IH]; simpl; [done|]. by rewrite He, IH. Qed.

Lemma path_join_truthy a b : truthy b = true -> truthy (path_join a b) = true.
Proof.
  unfold path_join. intros Hb. destruct (starts_with_sep b); [done|].
  destruct (negb (truthy a) || ends_with_sep a); destruct a, b; done.
Qed.

Lemma output_file_truthy sv vid : truthy (output_file sv vid) = true.
Proof.
  apply path_join_truthy. change (u ".mp3") with [46; 109; 112; 51].
  by destruct vid.
Qed.

Ltac events :=
  repeat first [apply Forall_app_2 | apply Forall_cons_2 | apply Forall_nil_2
               | done | by split].

Lemma download_audio_log sv url fs :
  Forall quiet (log (download_audio sv url fs)).
Proof. unfold download_audio. crunch; events. Qed.

Lemma download_audio_res sv url fs :
  let o := download_audio sv url fs in
  res o = inr None
  \/ exists vid, extract_video_id url = inr vid /\ 
       res o = inr (Some (output_file sv vid)) /\ output_file sv vid ∈ files o.
Proof.
  unfold download_audio. crunch; try by left.
  all: right; eexists; split; [done|]; split; [done|].
  all: match goal with
       | H : bool_decide (output_file _ _ ∈ _) = true |- _ =>
         by apply bool_decide_eq_true in H
       end.
Qed.

Lemma download_audio_raw sv url fs dir name raw :
  let o := download_audio sv url fs in
  Ext (StreamDownload dir name (inr raw)) ∈ log o -> raw ∉ files o.
Proof.
  unfold download_audio. crunch; rewrite ?elem_of_app, ?elem_of_cons, ?elem_of_nil.
  all: intros H; repeat destruct H as [H|H]; try done; simplify_eq.
  all: try set_solver.
  all: match goal with
       | H : bool_decide _ = false |- _ => by apply bool_decide_eq_false in H
       end.
Qed.

(** [transcribe_audio] *)

Lemma transcribe_audio_absent sv audio_file fs :
  (audio_file = None
   \/ exists path, audio_file = Some path /\ (truthy path = false \/ path ∉ fs)) ->
  transcribe_audio sv audio_file fs = Outcome (inl download_failed) fs [].
Proof.
  intros [-> | (path & -> & H)]; [done|]. unfold transcribe_audio.
  destruct H as [-> | H]; [done|]. destruct (truthy path); [|done].
  mrun. by rewrite bool_decide_eq_false_2.
Qed.

Lemma transcribe_audio_present sv path fs :
  truthy path = true -> path ∈ fs ->
  let o := transcribe_audio sv (Some path) fs in
  files o = fs ∖ {[path]}
  /\ count is_transcribe_call (log o) = 1%nat
  /\ count is_download_call (log o) = 0%nat
  /\ (forall m p, Ext (Transcribe m p) ∈ log o -> p = path)
  /\ (forall d n r, Ext (StreamDownload d n r) ∉ log o)
  /\ match transcribe sv (u "whisper-large-v3") path with
     | inr text => res o = inr (Some text, Some (u "en"))
     | inl e => res o = inl e
     end.
Proof.
  intros Ht Hp. unfold transcribe_audio. rewrite Ht. mrun.
  rewrite !bool_decide_eq_true_2 by done. mrun.
  destruct (transcribe sv _ path); mrun.
  all: rewrite !bool_decide_eq_true_2 by done.
  all: repeat split; try done.
  all: try (intros m p; rewrite ?elem_of_app, ?elem_of_cons, ?elem_of_nil;
            intros H; repeat destruct H as [H|H]; try done; by simplify_eq).
  all: intros d n r; rewrite ?elem_of_app, ?elem_of_cons, ?elem_of_nil;
       intros H; repeat destruct H as [H|H]; done.
Qed.

Ltac in_log H :=
  rewrite ?elem_of_app, ?elem_of_cons, ?elem_of_nil in H; destruct_or?;
  simplify_eq; try done.

Lemma fetch_captions_frame sv vid fs :
  let o := fetch_captions sv vid fs in
  files o = fs /\ Forall quiet (log o)
  /\ (forall d n r, Ext (StreamDownload d n r) ∉ log o).
Proof.
  unfold fetch_captions, next_iter. crunch.
  all: split; [done|]; split; [events|].
  all: intros d n r H; in_log H.
Qed.

Lemma fetch_captions_listing_fails sv vid fs e :
  list_transcripts sv vid = inl e -> res (fetch_captions sv vid fs) = inl e.
Proof. intros H. unfold fetch_captions. mrun. rewrite H. by mrun. Qed.


Lemma quiet_counts l :
  Forall quiet l ->
  count is_download_call l = 0%nat /\ count is_transcribe_call l = 0%nat.
Proof.
  intros H. split; apply count_none; eapply Forall_impl; try exact H;
    by intros e [? ?].
Qed.

Ltac with_download sv url fs r1 f1 l1 Hlog Hres Hraw :=
  generalize (download_audio_log sv url fs) (download_audio_res sv url fs)
             (fun d n r => download_audio_raw sv url fs d n r);
  cbv zeta;
  destruct (download_audio sv url fs) as [r1 f1 l1];
  cbn [res files log]; intros Hlog Hres Hraw.

Ltac with_transcribe sv p fs r2 f2 l2 H :=
  generalize (transcribe_audio_present sv p fs);
  cbv zeta;
  destruct (transcribe_audio sv (Some p) fs) as [r2 f2 l2];
  cbn [res files log]; intros H.

(** ** Claims about the transcript pipeline *)

Lemma extract_rick : extract_video_id rick = inr rick.
Proof. vm_compute. reflexivity. Qed.

(** C1. In a run of [get_transcript] in which the listing of the captions
    raises, [download_audio] is called exactly once, and the transcription
    is called exactly once when that call returns a file (and not at all
    when it returns [None]); in a run in which the captions are fetched,
    neither is called and the result is the text of the captions with its
    language code. *)
Theorem fallback_calls sv url fs vid :
  extract_video_id url = inr vid ->
  let o := get_transcript sv url fs in
  (forall e, list_transcripts sv vid = inl e ->
     count is_download_call (log o) = 1%nat
     /\ (forall p, res (download_audio sv url fs) = inr (Some p) ->
                   count is_transcribe_call (log o) = 1%nat)
     /\ (res (download_audio sv url fs) = inr None ->
         count is_transcribe_call (log o) = 0%nat))
  /\ (forall t l, res (fetch_captions sv vid fs) = inr (t, l) ->
        res o = inr (Some t, Some l)
        /\ count is_download_call (log o) = 0%nat
        /\ count is_transcribe_call (log o) = 0%nat).
Proof.
  intros Hx. split.
  - intros e He. unfold get_transcript, fetch_captions, whisper_fallback.
    mrun. rewrite Hx, He. mrun.
    with_download sv url fs r1 f1 l1 Hlog Hres Hraw.
    apply quiet_counts in Hlog as [Hd Ht].
    destruct Hres as [-> | (vid' & Hx' & -> & Hin)].
    + rewrite (transcribe_audio_absent sv None f1) by (by left). mrun.
      rewrite ?count_app, Hd, Ht. simpl. by repeat split.
    + with_transcribe sv (output_file sv vid') f1 r2 f2 l2 H.
      destruct (H (output_file_truthy _ _) Hin) as (_ & Hc & Hc' & _).
      destruct r2 as [e2|v2]; mrun; rewrite ?count_app, Hd, Ht, Hc, Hc'; simpl;
        by repeat split.
  - intros t l Hc. unfold get_transcript. mrun. rewrite Hx. mrun.
    generalize (fetch_captions_frame sv vid fs). cbv zeta. revert Hc.
    destruct (fetch_captions sv vid fs) as [r1 f1 l1]. cbn [res files log].
    intros -> (_ & [Hd Ht]%quiet_counts & _). mrun.
    rewrite ?count_app, Hd, Ht. by simpl.
Qed.

(** C1 on two runs: one without captions, one with captions. *)
Lemma fallback_calls_witness :
  count is_download_call (log (get_transcript sv_fallback rick ∅)) = 1%nat
  /\ count is_transcribe_call (log (get_transcript sv_fallback rick ∅)) = 1%nat
  /\ res (get_transcript sv_captions rick ∅)
     = inr (Some (u "never gonna give you up"), Some (u "en"))
  /\ count is_download_call (log (get_transcript sv_captions rick ∅)) = 0%nat
  /\ count is_transcribe_call (log (get_transcript sv_captions rick ∅)) = 0%nat.
Proof.
  destruct (fallback_calls sv_fallback rick ∅ rick extract_rick) as [H _].
  destruct (H unavailable eq_refl) as (Hd & Ht & _).
  destruct (fallback_calls sv_captions rick ∅ rick extract_rick) as [_ H'].
  split; [exact Hd|]. split.
  - apply (Ht (u "/tmp/youtube_audio/dQw4w9WgXcQ.mp3")). vm_compute. reflexivity.
  - apply H'. vm_compute. reflexivity.
Defined.

Lemma quiet_no_transcribe l m p : Forall quiet l -> Ext (Transcribe m p) ∉ l.
Proof.
  intros H Hin. rewrite Forall_forall in H. by destruct (H _ Hin) as [_ ?].
Qed.

Ltac with_captions sv vid fs r0 f0 l0 Hq Hs :=
  generalize (fetch_captions_frame sv vid fs);
  cbv zeta;
  destruct (fetch_captions sv vid fs) as [r0 f0 l0];
  cbn [res files log]; intros (-> & Hq & Hs).

(** C2. The audio files do not outlive the run. After [download_audio],
    whether the encoder wrote its output or not, the file that the download
    returned is not in the file system; after [get_transcript] neither that
    file nor the file given to the transcription is, whether the
    transcription returned or raised. *)
Theorem artifacts_removed sv url fs :
  (let o := download_audio sv url fs in
   forall d n raw, Ext (StreamDownload d n (inr raw)) ∈ log o -> raw ∉ files o)
  /\ (let o := get_transcript sv url fs in
      (forall d n raw,
         Ext (StreamDownload d n (inr raw)) ∈ log o -> raw ∉ files o)
      /\ (forall m p, Ext (Transcribe m p) ∈ log o -> p ∉ files o)).
Proof.
  split; [intros o d n raw; apply download_audio_raw|].
  unfold get_transcript. mrun.
  destruct (extract_video_id url) as [e|vid] eqn:Hx; mrun.
  { split; intros; match goal with H : _ ∈ _ |- _ => in_log H end. }
  with_captions sv vid fs r0 f0 l0 Hq Hs.
  destruct r0 as [e|[t l]]; mrun.
  2:{ split.
      - intros d n raw H. in_log H. by apply Hs in H.
      - intros m p H. in_log H. by apply quiet_no_transcribe in H. }
  unfold whisper_fallback. mrun.
  with_download sv url fs r1 f1 l1 Hlog Hres Hraw.
  destruct Hres as [-> | (vid' & Hx' & -> & Hin)].
  - rewrite (transcribe_audio_absent sv None f1) by (by left). mrun. split.
    + intros d n raw H. in_log H; [by apply Hs in H|by eapply Hraw].
    + intros m p H. in_log H; by apply quiet_no_transcribe in H.
  - with_transcribe sv (output_file sv vid') f1 r2 f2 l2 H.
    destruct (H (output_file_truthy _ _) Hin) as (-> & _ & _ & Hp & Hnd & _).
    destruct r2 as [e2|v2]; mrun; split.
    all: try (intros d n raw H'; in_log H';
              [by apply Hs in H'|apply Hraw in H'; set_solver|by apply Hnd in H']).
    all: intros m p H'; in_log H';
         [by apply quiet_no_transcribe in H'|by apply quiet_no_transcribe in H'
         |apply Hp in H'; set_solver].
Qed.

(** C2 on a run of the fallback: both files are gone. *)
Lemma artifacts_removed_witness :
  (u "/tmp/youtube_audio/dQw4w9WgXcQ_temp.mp4"
     ∉ files (get_transcript sv_fallback rick ∅))
  /\ (u "/tmp/youtube_audio/dQw4w9WgXcQ.mp3"
      ∉ files (get_transcript sv_fallback rick ∅)).
Proof.
  destruct (artifacts_removed sv_fallback rick ∅) as (_ & Hraw & Hout).
  split.
  - apply (Hraw (u "/tmp/youtube_audio") (u "dQw4w9WgXcQ_temp.mp4")).
    apply list_elem_of_In. vm_compute. tauto.
  - apply (Hout (u "whisper-large-v3")).
    apply list_elem_of_In. vm_compute. tauto.
Defined.







Lemma whisper_fallback_res sv url e fs :
  let o := whisper_fallback sv url e fs in
  res o = inr (None, None)
  \/ exists text, res o = inr (Some text, Some (u "en")).
Proof.
  unfold whisper_fallback. mrun.
  with_download sv url fs r1 f1 l1 Hlog Hres Hraw.
  destruct Hres as [-> | (vid' & Hx' & -> & Hin)].
  - rewrite (transcribe_audio_absent sv None f1) by (by left). mrun. by left.
  - with_transcribe sv (output_file sv vid') f1 r2 f2 l2 H.
    destruct (H (output_file_truthy _ _) Hin) as (_ & _ & _ & _ & _ & Hr).
    destruct (transcribe sv _ _) as [e'|text]; subst r2; mrun; [by left|].
    right. by exists text.
Qed.

Lemma whisper_fallback_none sv url e fs :
  res (download_audio sv url fs) = inr None ->
  res (whisper_fallback sv url e fs) = inr (None, None).
Proof.
  unfold whisper_fallback. mrun.
  destruct (download_audio sv url fs) as [r1 f1 l1]. cbn [res]. intros ->.
  rewrite (transcribe_audio_absent sv None f1) by (by left). by mrun.
Qed.

Ltac with_fallback sv url e fs r3 f3 l3 H :=
  generalize (whisper_fallback_res sv url e fs);
  cbv zeta;
  destruct (whisper_fallback sv url e fs) as [r3 f3 l3];
  cbn [res files log]; intros H.

(** C10. [download_audio] raises nothing: it returns [None] when no
    audio stream is offered, when the download raises, and when the output
    file is not there after the encoder ran. [get_transcript] raises
    nothing either: in the fallback it returns [(None, None)] when
    [download_audio] returned [None], and the step after the download
    raises, for the handler to catch, when it is given [None], an empty
    path or a path that is not in the file system. *)
Theorem no_exception_escapes sv url fs :
  (exists v, res (download_audio sv url fs) = inr v)
  /\ (forall vid yt,
        extract_video_id url = inr vid ->
        makedirs sv (temp_dir sv) = inr tt ->
        new_YouTube sv url = inr yt ->
        (first_audio_stream yt = inr None ->
         res (download_audio sv url fs) = inr None)
        /\ (forall strm e fs1,
              first_audio_stream yt = inr (Some strm) ->
              download strm (temp_dir sv) (vid ++ u "_temp.mp4") fs = (inl e, fs1) ->
              res (download_audio sv url fs) = inr None)
        /\ (forall strm raw fs1,
              first_audio_stream yt = inr (Some strm) ->
              download strm (temp_dir sv) (vid ++ u "_temp.mp4") fs = (inr raw, fs1) ->
              output_file sv vid
                ∉ os_system sv (ffmpeg_command raw (output_file sv vid)) fs1
                  ∖ {[raw]} ->
              res (download_audio sv url fs) = inr None))
  /\ (exists r, res (get_transcript sv url fs) = inr r)
  /\ (forall vid e,
        extract_video_id url = inr vid ->
        res (fetch_captions sv vid fs) = inl e ->
        res (download_audio sv url fs) = inr None ->
        res (get_transcript sv url fs) = inr (None, None))
  /\ (forall audio_file fs',
        audio_file = None
        \/ (exists path, audio_file = Some path
                         /\ (truthy path = false \/ path ∉ fs')) ->
        transcribe_audio sv audio_file fs' = Outcome (inl download_failed) fs' []).
Proof.
  split; [|split; [|split; [|split]]].
  - destruct (download_audio_res sv url fs) as [H | (vid & _ & H & _)]; eauto.
  - intros vid yt Hx Hm Hy. unfold download_audio. mrun. rewrite Hx, Hm, Hy. mrun.
    split; [|split].
    + intros ->. by mrun.
    + intros strm e fs1 -> Hd. mrun. rewrite Hd. by mrun.
    + intros strm raw fs1 -> Hd Hout. mrun. rewrite Hd. crunch; try done.
      all: exfalso; apply Hout.
      all: repeat match goal with
                  | H : bool_decide _ = true |- _ => apply bool_decide_eq_true in H
                  | H : bool_decide _ = false |- _ => apply bool_decide_eq_false in H
                  end.
      all: set_solver.
  - unfold get_transcript. mrun.
    destruct (extract_video_id url) as [e|vid]; mrun; [eauto|].
    destruct (fetch_captions sv vid fs) as [[e|[t l]] f0 l0]; mrun; [|eauto].
    with_fallback sv url e f0 r3 f3 l3 H.
    destruct H as [-> | (text & ->)]; mrun; eauto.
  - intros vid e Hx Hc Hd. unfold get_transcript. mrun. rewrite Hx. mrun.
    generalize (fetch_captions_frame sv vid fs). cbv zeta. revert Hc.
    destruct (fetch_captions sv vid fs) as [r0 f0 l0]. cbn [res files log].
    intros -> (-> & _). mrun.
    generalize (whisper_fallback_none sv url e fs Hd).
    destruct (whisper_fallback sv url e fs) as [r3 f3 l3]. cbn [res].
    intros ->. by mrun.
  - intros audio_file fs'. apply transcribe_audio_absent.
Qed.

(** C10 on a run without captions and without audio stream. *)
Lemma no_exception_escapes_witness :
  res (download_audio sv_nothing rick ∅) = inr None
  /\ res (get_transcript sv_nothing rick ∅) = inr (None, None).
Proof.
  destruct (no_exception_escapes sv_nothing rick ∅) as (_ & Hmodes & _ & Hfb & _).
  assert (res (download_audio sv_nothing rick ∅) = inr None) as Hd.
  { apply (Hmodes rick {| first_audio_stream := inr None |});
      [exact extract_rick|reflexivity|reflexivity|reflexivity]. }
  split; [exact Hd|].
  apply (Hfb rick unavailable); [exact extract_rick| |exact Hd].
  vm_compute. reflexivity.
Defined.

(** ** Claims about the summarizer and [main] *)

Lemma silent_counts l :
  Forall silent l ->
  count is_chat_call l = 0%nat /\ count is_markdown l = 0%nat.
Proof.
  intros H. split; apply count_none; eapply Forall_impl; try exact H;
    by intros e [? ?].
Qed.

Lemma download_audio_silent sv url fs :
  Forall silent (log (download_audio sv url fs)).
Proof. unfold download_audio. crunch; events. Qed.

Lemma fetch_captions_silent sv vid fs :
  Forall silent (log (fetch_captions sv vid fs)).
Proof. unfold fetch_captions, next_iter. crunch; events. Qed.

Lemma get_transcript_silent sv url fs :
  Forall silent (log (get_transcript sv url fs)).
Proof.
  unfold get_transcript. mrun.
  destruct (extract_video_id url) as [e|vid]; mrun; [events|].
  generalize (fetch_captions_silent sv vid fs).
  generalize (fetch_captions_frame sv vid fs). cbv zeta.
  destruct (fetch_captions sv vid fs) as [[e|[t l]] f0 l0]; cbn [res files log];
    intros (-> & _) Hs0; mrun; [|events].
  unfold whisper_fallback. mrun.
  generalize (download_audio_silent sv url fs).
  destruct (download_audio sv url fs) as [r1 f1 l1]. cbn [log]. intros Hs.
  unfold transcribe_audio. crunch; events.
Qed.

Lemma languages_item name code :
  (name, code) ∈ get_available_languages ->
  dict_item get_available_languages name = inr code.
Proof.
  unfold get_available_languages. rewrite !elem_of_cons, elem_of_nil.
  intros H. destruct_or?; simplify_eq; try done; vm_compute; reflexivity.
Qed.

Lemma summarize_run sv transcript language_code model_name fs :
  let o := summarize_with_langchain_and_openai sv transcript language_code
             model_name fs in
  match split_text sv 2000 200 transcript with
  | inl e => o = Outcome (inl e) fs []
  | inr chunks =>
    let request :=
      request_for (join (u " ") (take 4 chunks)) language_code model_name in
    match chat_completions sv request with
    | inl e =>
      o = Outcome (inr None) fs
            [Ext (ChatCompletion request);
             St StError (u "Error with Groq API: " ++ exn_msg e)]
    | inr content => o = Outcome (inr content) fs [Ext (ChatCompletion request)]
    end
  end.
Proof.
  unfold summarize_with_langchain_and_openai. mrun.
  destruct (split_text sv 2000 200 transcript) as [e|chunks]; mrun; [done|].
  pose proof (eq_refl (request_for (join (u " ") (take 4 chunks))
                                   language_code model_name)) as Hreq.
  unfold request_for at 1 in Hreq. revert Hreq.
  destruct (create_summary_prompt (join (u " ") (take 4 chunks)) language_code)
    as [system_prompt user_prompt].
  cbn [fst snd]. intros ->.
  by destruct (chat_completions sv _) as [e|content]; mrun.
Qed.

Ltac with_summary sv t c m fs H :=
  generalize (summarize_run sv t c m fs); cbv zeta;
  destruct (summarize_with_langchain_and_openai sv t c m fs) as [r4 f4 l4];
  intros H.

(** C5, as amended. When [get_transcript] yields no transcript in a run
    of the button with a link and a language of the select box, [main] has
    no guard: it shows the status of the generation and calls the
    summarizer with [None], which hands [None] to the text splitter before
    anything else. If the splitter raises, the generation backend is not
    called, the only [st.markdown] of the run is the introduction, and the
    last thing shown is [An error occurred: ...] with the splitter's
    message. If the splitter returns, the backend is called once, on
    the first four of its chunks, and [st.markdown] is called with its
    answer, or with [None] when it raises. *)
Theorem no_summary_without_transcript sv link name code fs x :
  (name, code) ∈ get_available_languages -> truthy link = true ->
  res (get_transcript sv link fs) = inr (None, x) ->
  let o := main sv link name true fs in
  Enter FnSummarize ∈ log o
  /\ St StStatus (u "🤖 Generating " ++ name ++ u " summary...") ∈ log o
  /\ (forall e,
        split_text sv 2000 200 None = inl e ->
        count is_chat_call (log o) = 0%nat
        /\ count is_markdown (log o) = 1%nat
        /\ StMarkdown (Some intro) ∈ log o
        /\ last (log o)
           = Some (St StError (u "An error occurred: " ++ exn_msg e)))
  /\ (forall chunks,
        split_text sv 2000 200 None = inr chunks ->
        let request := request_for (join (u " ") (take 4 chunks)) code llama in
        count is_chat_call (log o) = 1%nat
        /\ Ext (ChatCompletion request) ∈ log o
        /\ count is_markdown (log o) = 2%nat
        /\ StMarkdown (match chat_completions sv request with
                        | inr answer => answer
                        | inl _ => None
                        end) ∈ log o).
Proof.
  intros Hn%languages_item Hl Hg. unfold llama, main. mrun. rewrite Hn. mrun.
  rewrite Hl. generalize (get_transcript_silent sv link fs). revert Hg.
  destruct (get_transcript sv link fs) as [r1 f1 l1]. cbn [res log].
  intros -> [Hc Hm]%silent_counts. mrun.
  with_summary sv (@None pystr) code (u "llama-3.1-8b-instant") f1 H.
  destruct (split_text sv 2000 200 None) as [e|chunks].
  - pose proof (f_equal res H) as Hr4. pose proof (f_equal log H) as Hl4.
    cbn [res log] in Hr4, Hl4. subst r4 l4. mrun.
    split; [set_solver|]. split; [set_solver|].
    split; [|by intros chunks [=]]. intros e' [= <-].
    rewrite ?count_app, Hc, Hm. split; [done|]. split; [done|].
    split; [set_solver|].
    rewrite !app_assoc. apply last_snoc.
  - cbv zeta in H.
    destruct (chat_completions sv _) as [e|answer] eqn:Hchat;
      pose proof (f_equal res H) as Hr4; pose proof (f_equal log H) as Hl4;
      cbn [res log] in Hr4, Hl4; subst r4 l4; mrun.
    all: split; [set_solver|]; split; [set_solver|].
    all: split; [by intros e' [=]|]; intros chunks' [= <-]; rewrite Hchat.
    all: rewrite ?count_app, Hc, Hm.
    all: split; [done|]; split; [set_solver|]; split; [done|]; set_solver.
Qed.

(** C5 on a run without captions and without audio stream, with a
    splitter that raises on [None]. *)
Lemma no_summary_without_transcript_witness :
  let o := main sv_nothing rick (u "Español") true ∅ in
  Enter FnSummarize ∈ log o
  /\ count is_chat_call (log o) = 0%nat
  /\ count is_markdown (log o) = 1%nat
  /\ StMarkdown (Some intro) ∈ log o
  /\ last (log o)
     = Some (St StError
               (u "An error occurred: "
                ++ exn_msg (Exn TypeError
                              (u "expected string or bytes-like object")))).
Proof.
  assert (res (get_transcript sv_nothing rick ∅) = inr (None, None)) as Hg.
  { vm_compute. reflexivity. }
  assert ((u "Español", u "es") ∈ get_available_languages) as Hn.
  { unfold get_available_languages. do 2 apply list_elem_of_further.
    apply list_elem_of_here. }
  destruct (no_summary_without_transcript sv_nothing rick (u "Español")
              (u "es") ∅ None Hn eq_refl Hg) as (Hin & _ & Hraise & _).
  split; [exact Hin|].
  exact (Hraise (Exn TypeError (u "expected string or bytes-like object"))
                eq_refl).
Defined.

(** C5 as stated fails. In the run above no transcript comes back and the
    summarizer is entered all the same; and with a splitter that answers
    [None] with no chunk, the backend is called and its answer is shown as
    the summary. *)
Lemma summary_without_transcript :
  res (get_transcript sv_nothing rick ∅) = inr (None, None)
  /\ Enter FnSummarize ∈ log (main sv_nothing rick (u "Español") true ∅)
  /\ res (get_transcript sv_lenient rick ∅) = inr (None, None)
  /\ count is_chat_call (log (main sv_lenient rick (u "Español") true ∅))
     = 1%nat
  /\ StMarkdown (Some (u "a summary"))
     ∈ log (main sv_lenient rick (u "Español") true ∅).
Proof.
  split; [vm_compute; reflexivity|]. split.
  { apply list_elem_of_In. vm_compute. tauto. }
  split; [vm_compute; reflexivity|]. split; [vm_compute; reflexivity|].
  apply list_elem_of_In. vm_compute. tauto.
Qed.

Lemma language_prompts_lookup target :
  language_prompts !! target =
  if decide (target = u "de") then Some german
  else if decide (target = u "en") then Some english else None.
Proof.
  unfold language_prompts. rewrite lookup_insert.
  destruct (decide (u "de" = target)) as [<-|Hde].
  - by rewrite decide_True.
  - rewrite decide_False by done. rewrite lookup_insert.
    destruct (decide (u "en" = target)) as [<-|Hen].
    + by rewrite decide_True.
    + rewrite decide_False by done. apply lookup_empty.
Qed.

(** The user prompt of a Spanish request, as the backend receives it. *)
Example spanish_user_prompt :
  (create_summary_prompt (u "hola") (u "es")).2 =
  u "Please provide a detailed summary of the following content in es. 
    Structure your response as follows:

    🎯 TITLE: Create a descriptive title

    📝 OVERVIEW (2-3 sentences):
    - Provide a brief context and main purpose

    🔑 KEY POINTS:
    - Extract and explain the main arguments
    - Include specific examples
    - Highlight unique perspectives

    💡 MAIN TAKEAWAYS:
    - List 3-5 practical insights
    - Explain their significance

    🔄 CONTEXT & IMPLICATIONS:
    - Broader context discussion
    - Future implications

    Text to summarize: hola

    Ensure the summary is comprehensive enough for someone who hasn't seen the original content.".
Proof. vm_compute. reflexivity. Qed.

(** C7. The user prompt is a fixed text around the target language, the
    five section headers and the text to summarize; the headers are those
    of the entry of [language_prompts] for the target language when there
    is one, and the English ones when there is none. The mapping has the
    entries [en] and [de] only, so a Spanish request gets the English
    headers. *)
Theorem prompt_vocabulary :
  (exists p0 p1 p2 p3 p4 p5 p6 p7 : pystr,
     forall text target v,
       language_prompts !! target = Some v
       \/ (language_prompts !! target = None /\ v = english) ->
       (create_summary_prompt text target).2 =
       p0 ++ target ++ p1 ++ title v ++ p2 ++ overview v ++ p3
       ++ key_points v ++ p4 ++ takeaways v ++ p5 ++ context v ++ p6
       ++ text ++ p7)
  /\ language_prompts !! u "en" = Some english
  /\ language_prompts !! u "de" = Some german
  /\ (forall target, target <> u "en" -> target <> u "de" ->
                     language_prompts !! target = None)
  /\ language_prompts !! u "es" = None.
Proof.
  split; [|split; [|split; [|split]]].
  - do 8 eexists. intros text target v Hv. unfold create_summary_prompt.
    replace (default english (language_prompts !! target)) with v.
    2:{ by destruct Hv as [-> | [-> ->]]. }
    cbn [snd]. reflexivity.
  - rewrite language_prompts_lookup. by vm_compute.
  - rewrite language_prompts_lookup. by vm_compute.
  - intros target Hen Hde. rewrite language_prompts_lookup.
    by rewrite !decide_False.
  - rewrite language_prompts_lookup. by vm_compute.
Qed.

(** C7 on a Spanish request. *)
Lemma prompt_vocabulary_witness :
  exists p0 p1 p2 p3 p4 p5 p6 p7 : pystr,
    (create_summary_prompt (u "hola") (u "es")).2 =
    p0 ++ u "es" ++ p1 ++ title english ++ p2 ++ overview english ++ p3
    ++ key_points english ++ p4 ++ takeaways english ++ p5
    ++ context english ++ p6 ++ u "hola" ++ p7.
Proof.
  destruct (proj1 prompt_vocabulary) as (p0 & p1 & p2 & p3 & p4 & p5 & p6 & p7 & H).
  exists p0, p1, p2, p3, p4, p5, p6, p7.
  apply (H (u "hola") (u "es") english). right. split; [|done].
  apply (proj2 prompt_vocabulary).
Defined.

(** C6. For every transcript, the splitter is called with chunk size
    2000 and overlap 200, and every request that reaches the generation
    backend is built from the first four chunks at most, joined by a
    space: the request is sent once when the splitter returns. *)
Theorem summarizer_prefix sv transcript language_code model_name fs :
  let o := summarize_with_langchain_and_openai sv (Some transcript)
             language_code model_name fs in
  (forall request, Ext (ChatCompletion request) ∈ log o ->
     exists chunks,
       split_text sv 2000 200 (Some transcript) = inr chunks
       /\ request = request_for (join (u " ") (take 4 chunks))
                                language_code model_name
       /\ (length (take 4 chunks) <= 4)%nat
       /\ take 4 chunks `prefix_of` chunks)
  /\ (forall chunks, split_text sv 2000 200 (Some transcript) = inr chunks ->
        count is_chat_call (log o) = 1%nat).
Proof.
  unfold summarize_with_langchain_and_openai. mrun.
  destruct (split_text sv 2000 200 (Some transcript)) as [e|chunks]; mrun.
  { split; [|done]. intros request H. in_log H. }
  pose proof (eq_refl (request_for (join (u " ") (take 4 chunks))
                                   language_code model_name)) as Hreq.
  unfold request_for at 1 in Hreq. revert Hreq.
  destruct (create_summary_prompt (join (u " ") (take 4 chunks)) language_code)
    as [system_prompt user_prompt].
  cbn [fst snd]. intros Hreq. rewrite Hreq.
  destruct (chat_completions sv _) as [e|content]; mrun.
  all: split; [|intros chunks' _; by simpl].
  all: intros request H; in_log H; exists chunks.
  all: split; [done|]; split; [done|].
  all: split; [rewrite length_take; lia|apply prefix_take].
Qed.

(** C6 on a short transcript. *)
Lemma summarizer_prefix_witness :
  count is_chat_call
    (log (summarize_with_langchain_and_openai sv_captions (Some (u "some words"))
            (u "de") (u "llama-3.1-8b-instant") ∅)) = 1%nat.
Proof.
  apply (proj2 (summarizer_prefix sv_captions (u "some words") (u "de")
                  (u "llama-3.1-8b-instant") ∅) [u "some words"]).
  reflexivity.
Defined.

(** * Further properties *)

(** ** More about [extract_video_id] *)

Lemma lstrip_split s :
  exists l, s = l ++ lstrip s /\ forallb is_space l = true.
Proof.
  induction s as [|c s (l & Hs & Hl)]; [by exists []|]. cbn [lstrip].
  destruct (is_space c) eqn:Hc; [|by exists []].
  exists (c :: l). simpl. rewrite Hc. split; [by rewrite <- Hs|done].
Qed.

Lemma rstrip_split s :
  exists r, s = rstrip s ++ r /\ forallb is_space r = true.
Proof.
  induction s as [|c s (r & Hs & Hr)] using rev_ind; [by exists []|].
  rewrite rstrip_snoc. destruct (is_space c) eqn:Hc.
  - exists (r ++ [c]). rewrite app_assoc, <- Hs. split; [done|].
    rewrite forallb_app, Hr. simpl. by rewrite Hc.
  - exists []. by rewrite app_nil_r.
Qed.

Lemma strip_split s :
  exists l r, s = l ++ strip s ++ r
              /\ forallb is_space l = true /\ forallb is_space r = true.
Proof.
  destruct (rstrip_split s) as (r & Hs & Hr).
  destruct (lstrip_split (rstrip s)) as (l & Hl & Hl').
  exists l, r. unfold strip. split; [|done].
  rewrite app_assoc, <- Hl. exact Hs.
Qed.

Lemma rstrip_all_space l : forallb is_space l = true -> rstrip l = [].
Proof. intros H. by rewrite <- (app_nil_l l), rstrip_spaces. Qed.

Lemma rstrip_app_l l s :
  rstrip (l ++ s) = match rstrip s with [] => rstrip l | _ => l ++ rstrip s end.
Proof.
  induction s as [|c s IH] using rev_ind; [by rewrite app_nil_r|].
  rewrite app_assoc, !rstrip_snoc. destruct (is_space c); [done|].
  rewrite <- app_assoc. by destruct s.
Qed.

Lemma strip_pad l s r :
  forallb is_space l = true -> forallb is_space r = true ->
  strip (l ++ s ++ r) = strip s.
Proof.
  intros Hl Hr. unfold strip.
  rewrite app_assoc, rstrip_spaces, rstrip_app_l by done.
  destruct (rstrip s) eqn:Hs.
  - by rewrite rstrip_all_space.
  - by rewrite lstrip_spaces.
Qed.

Lemma first_match_inr ps s i :
  first_match ps s = inr i ->
  exists p m, p ∈ ps /\ re_search p s = Some m /\ group1 m = i.
Proof.
  induction ps as [|q ps IH]; cbn [first_match]; [done|].
  destruct (re_search q s) as [m|] eqn:Hq.
  - intros [= <-]. exists q, m. set_solver.
  - intros (p & m & Hp & Hm & Hi)%IH. exists p, m. set_solver.
Qed.

(** What a pattern captures stands in the string. *)
Lemma pattern_capture_infix p s i :
  p ∈ patterns -> re_search p s = Some (found i) ->
  exists a b, s = a ++ i ++ b.
Proof.
  unfold patterns, re_search. rewrite !elem_of_cons, elem_of_nil.
  intros Hp Hs.
  assert (forall n t, drop n s = t -> s = take n s ++ t) as Hcut.
  { intros n t <-. by rewrite take_drop. }
  destruct Hp as [-> | [-> | [-> | [-> | [-> | []]]]]].
  - apply search_from_some in Hs as (n & b & Hm).
    rewrite match_here_standard in Hm.
    destruct (standard_at (drop n s)) as [j|] eqn:Hj; [|done].
    injection Hm as ->.
    apply standard_at_some in Hj as (sep & t & Hd & _).
    exists (take n s ++ sep), t. rewrite <- app_assoc. by apply Hcut.
  - apply search_from_some in Hs as (n & b & Hm).
    apply match_here_lit_id11 in Hm as (j & t & Hd & [= <-] & _).
    eexists (take n s ++ _), t. rewrite <- app_assoc. by apply Hcut.
  - apply search_from_some in Hs as (n & b & Hm).
    apply match_here_lit_id11 in Hm as (j & t & Hd & [= <-] & _).
    eexists (take n s ++ _), t. rewrite <- app_assoc. by apply Hcut.
  - apply search_from_some in Hs as (n & b & Hm).
    apply match_here_lit_id11 in Hm as (j & t & Hd & [= <-] & _).
    eexists (take n s ++ _), t. rewrite <- app_assoc. by apply Hcut.
  - apply search_from_some in Hs as (n & b & Hm).
    apply match_here_bare in Hm as (_ & j & [= <-] & _ & [Hd | Hd]).
    + exists (take n s), []. rewrite app_nil_r. by apply Hcut.
    + exists (take n s), [10]. by apply Hcut.
Qed.

Lemma extract_inr_capture s i :
  extract_video_id s = inr i ->
  is_video_id i = true
  /\ exists p, p ∈ patterns /\ re_search p (strip s) = Some (found i).
Proof.
  unfold extract_video_id.
  intros (p & m & Hp & Hm & <-)%first_match_inr.
  destruct (patterns_capture p _ m Hp Hm) as (i & -> & Hi).
  split; [done|]. by exists p.
Qed.

(** X1. Whatever [extract_video_id] returns is eleven characters of the
    class [[0-9A-Za-z_-]] that stand, next to each other, in the string it
    was given: the function never makes up or alters an id. *)
Theorem extract_video_id_sound s i :
  extract_video_id s = inr i ->
  is_video_id i = true /\ exists a b, s = a ++ i ++ b.
Proof.
  intros (Hi & p & Hp & Hm)%extract_inr_capture. split; [done|].
  destruct (pattern_capture_infix p _ i Hp Hm) as (a & b & Hs).
  destruct (strip_split s) as (l & r & Hsplit & _).
  exists (l ++ a), (b ++ r). rewrite Hsplit at 1. rewrite Hs.
  by rewrite <- !app_assoc.
Qed.

Lemma extract_video_id_sound_witness :
  is_video_id (u "dQw4w9WgXcQ") = true
  /\ exists a b, u " https://youtu.be/dQw4w9WgXcQ?t=1 " = a ++ u "dQw4w9WgXcQ" ++ b.
Proof.
  apply extract_video_id_sound. vm_compute. reflexivity.
Defined.

(** X2. White space (of [str.strip]) before and after the input does not
    change what [extract_video_id] returns or raises. *)
Theorem extract_video_id_padding l s r :
  forallb is_space l = true -> forallb is_space r = true ->
  extract_video_id (l ++ s ++ r) = extract_video_id s.
Proof. intros Hl Hr. unfold extract_video_id. by rewrite strip_pad. Qed.

Lemma extract_video_id_padding_witness :
  extract_video_id (u "  " ++ u "youtu.be/dQw4w9WgXcQ" ++ [10; 9])
  = extract_video_id (u "youtu.be/dQw4w9WgXcQ").
Proof. apply extract_video_id_padding; reflexivity. Defined.

(** X3. An id that [extract_video_id] returns is an input that it accepts,
    and it is returned as it is: the function is idempotent. *)
Theorem extract_video_id_fixpoint s i :
  extract_video_id s = inr i -> extract_video_id i = inr i.
Proof.
  intros [Hi _]%extract_inr_capture.
  rewrite <- (app_nil_r i) at 1.
  by apply (extract_bare [] i []).
Qed.

Lemma extract_video_id_fixpoint_witness :
  extract_video_id (u "dQw4w9WgXcQ") = inr (u "dQw4w9WgXcQ").
Proof.
  apply (extract_video_id_fixpoint (u "https://youtu.be/dQw4w9WgXcQ")).
  vm_compute. reflexivity.
Defined.

Lemma middle_pattern_none w t b :
  search_from pat_standard true t = None ->
  search_from (Cat (lit (w ++ [47])) id11) b t = None.
Proof.
  intros Hstd.
  destruct (search_from (Cat (lit (w ++ [47])) id11) b t) as [m|] eqn:Hm; [|done].
  apply search_from_some in Hm as (n & b' & Hm).
  apply lit_match_standard in Hm as [k Hk].
  by rewrite (proj1 (search_standard_none true t) Hstd) in Hk.
Qed.

(** X4. The patterns for embed, short and shorts URLs never decide a result:
    each of them ends in a slash and eleven characters of the class, which
    the first pattern finds before them. On every input [extract_video_id]
    does what it would do with the first and the last pattern alone. *)
Theorem middle_patterns_never_decide s :
  extract_video_id s = first_match [pat_standard; pat_bare] (strip s).
Proof.
  unfold extract_video_id, patterns. cbn [first_match].
  destruct (re_search pat_standard (strip s)) as [m|] eqn:Hstd; [done|].
  unfold re_search in *.
  change pat_embed with (Cat (lit (u "embed" ++ [47])) id11).
  change pat_short with (Cat (lit (u "youtu.be" ++ [47])) id11).
  change pat_shorts with (Cat (lit (u "shorts" ++ [47])) id11).
  by rewrite !middle_pattern_none.
Qed.

(** ** More about the transcript pipeline *)

Lemma extract_raises_invalid url e :
  extract_video_id url = inl e -> e = invalid_url.
Proof.
  unfold extract_video_id. generalize (strip url). intros s.
  induction patterns as [|p ps IH]; cbn [first_match]; [by intros [= <-]|].
  by destruct (re_search p s).
Qed.

Lemma get_transcript_value sv url fs :
  exists v, res (get_transcript sv url fs) = inr v.
Proof.
  unfold get_transcript. mrun.
  destruct (extract_video_id url) as [e|vid]; mrun; [eauto|].
  destruct (fetch_captions sv vid fs) as [[e|[t l]] f0 l0]; mrun; [|eauto].
  with_fallback sv url e f0 r3 f3 l3 H.
  destruct H as [-> | (text & ->)]; mrun; eauto.
Qed.

(** X6. [get_transcript] returns in one of three ways only: [(None, None)];
    the text and language that the captions step returned; or, after the
    captions step raised, the text that the transcription of the audio file
    of the video returned, with the language ['en']. *)
Theorem get_transcript_result sv url fs :
  let o := get_transcript sv url fs in
  res o = inr (None, None)
  \/ (exists vid text language,
        extract_video_id url = inr vid
        /\ res (fetch_captions sv vid fs) = inr (text, language)
        /\ res o = inr (Some text, Some language))
  \/ (exists vid e text,
        extract_video_id url = inr vid
        /\ res (fetch_captions sv vid fs) = inl e
        /\ transcribe sv (u "whisper-large-v3") (output_file sv vid) = inr text
        /\ res o = inr (Some text, Some (u "en"))).
Proof.
  unfold get_transcript. mrun.
  destruct (extract_video_id url) as [e|vid] eqn:Hx; mrun; [by left|].
  generalize (fetch_captions_frame sv vid fs). cbv zeta.
  destruct (fetch_captions sv vid fs) as [[e|[t l]] f0 l0] eqn:Hfc;
    cbn [res files log]; intros (-> & _); mrun.
  2:{ right. left. exists vid, t, l. by rewrite Hfc. }
  unfold whisper_fallback. mrun.
  with_download sv url fs r1 f1 l1 Hlog Hres Hraw.
  destruct Hres as [-> | (vid' & Hx' & -> & Hin)].
  - rewrite (transcribe_audio_absent sv None f1) by (by left). mrun. by left.
  - assert (vid' = vid) as -> by congruence.
    with_transcribe sv (output_file sv vid) f1 r2 f2 l2 H.
    destruct (H (output_file_truthy _ _) Hin) as (_ & _ & _ & _ & _ & Hr).
    destruct (transcribe sv _ _) as [e'|text] eqn:Ht; subst r2; mrun;
      [by left|].
    right. right. exists vid, e, text. by rewrite Hfc, Ht.
Qed.

(** X7. When no id can be extracted from the link, the exception is the
    [ValueError] of [extract_video_id], and [get_transcript] and
    [download_audio] each show their one error message, return nothing,
    leave the files as they are and call no service at all. *)
Theorem invalid_url_contacts_nothing sv url fs e :
  extract_video_id url = inl e ->
  e = invalid_url
  /\ get_transcript sv url fs =
     Outcome (inr (None, None)) fs
       [St StError (u "Error processing video: " ++ exn_msg invalid_url)]
  /\ download_audio sv url fs =
     Outcome (inr None) fs
       [St StInfo (u "Downloading audio...");
        St StError (u "Error downloading audio: " ++ exn_msg invalid_url)].
Proof.
  intros Hx. pose proof (extract_raises_invalid _ _ Hx) as ->.
  split; [done|]. unfold get_transcript, download_audio. mrun.
  rewrite Hx. by mrun.
Qed.

Lemma invalid_url_contacts_nothing_witness :
  invalid_url = invalid_url
  /\ get_transcript sv_fallback (u "not a video link") ∅ =
     Outcome (inr (None, None)) ∅
       [St StError (u "Error processing video: " ++ exn_msg invalid_url)]
  /\ download_audio sv_fallback (u "not a video link") ∅ =
     Outcome (inr None) ∅
       [St StInfo (u "Downloading audio...");
        St StError (u "Error downloading audio: " ++ exn_msg invalid_url)].
Proof.
  apply (invalid_url_contacts_nothing sv_fallback (u "not a video link") ∅
           invalid_url).
  vm_compute. reflexivity.
Defined.

(** X8. A run of [get_transcript] whose captions step succeeds leaves the
    files as they were, and apart from what it shows it only asks the
    captions library (listing, lookup of a manual track, fetch). *)
Theorem captions_leave_files sv url fs vid captions :
  extract_video_id url = inr vid ->
  res (fetch_captions sv vid fs) = inr captions ->
  let o := get_transcript sv url fs in
  files o = fs /\ forallb captions_only (log o) = true.
Proof.
  intros Hx Hc. unfold get_transcript, fetch_captions, next_iter in *.
  revert Hc. mrun. rewrite Hx. crunch; intros [= <-]; by split.
Qed.

Lemma captions_leave_files_witness :
  let o := get_transcript sv_captions rick {[u "/home/me/notes.txt"]} in
  files o = {[u "/home/me/notes.txt"]}
  /\ forallb captions_only (log o) = true.
Proof.
  apply (captions_leave_files sv_captions rick _ rick
           (u "never gonna give you up", u "en")).
  - exact extract_rick.
  - vm_compute. reflexivity.
Defined.

(** ** More about [download_audio] *)

(** X9. [download_audio] returns a path exactly when the id is found, the
    directory is made, a stream is offered, the download returns, and the
    output path is among the files after the encoder has run and the
    downloaded file is removed. The result is then the output path of the
    id. That the encoder wrote the file in this run is not asked for: a
    file left there earlier counts. *)
Theorem download_audio_success sv url fs p :
  res (download_audio sv url fs) = inr (Some p)
  <-> exists vid raw fs1,
        download_reaches sv url fs vid raw fs1
        /\ p = output_file sv vid
        /\ p ∈ os_system sv (ffmpeg_command raw p) fs1 ∖ {[raw]}.
Proof.
  unfold download_reaches. split.
  - unfold download_audio. crunch; intros [= <-].
    all: repeat match goal with x : unit |- _ => destruct x end.
    all: eexists _, _, _; split; [split; [done|]; split; [done|]; eauto|].
    all: split; [done|].
    all: repeat match goal with
                | H : bool_decide _ = true |- _ => apply bool_decide_eq_true in H
                | H : bool_decide _ = false |- _ => apply bool_decide_eq_false in H
                end.
    all: set_solver.
  - intros (vid & raw & fs1 & (Hx & Hm & yt & strm & Hy & Hs & Hd) & -> & Hin).
    unfold download_audio. mrun. rewrite Hx, Hm. mrun. rewrite Hy. mrun.
    rewrite Hs. mrun. rewrite Hd. crunch; try done.
    all: exfalso.
    all: repeat match goal with
                | H : bool_decide _ = true |- _ => apply bool_decide_eq_true in H
                | H : bool_decide _ = false |- _ => apply bool_decide_eq_false in H
                end.
    all: set_solver.
Qed.

Lemma download_audio_success_witness :
  res (download_audio sv_stale rick {[u "/tmp/youtube_audio/dQw4w9WgXcQ.mp3"]})
  = inr (Some (u "/tmp/youtube_audio/dQw4w9WgXcQ.mp3")).
Proof.
  apply download_audio_success.
  exists rick, (u "/tmp/youtube_audio/dQw4w9WgXcQ_temp.mp4"), 
    ({[u "/tmp/youtube_audio/dQw4w9WgXcQ_temp.mp4"]}
       ∪ {[u "/tmp/youtube_audio/dQw4w9WgXcQ.mp3"]}).
  split; [|split].
  - split; [exact extract_rick|]. split; [reflexivity|].
    eexists _, demo_stream. split; [reflexivity|]. split; [reflexivity|].
    vm_compute. reflexivity.
  - vm_compute. reflexivity.
  - apply (bool_decide_unpack _). vm_compute. exact I.
Defined.

(** ** More about the summarizer and [main] *)

(** X10. The only exception that leaves the summarizer is one of the text
    splitter, which runs before the [try]; an exception of the generation
    backend is shown and turned into [None]. The summarizer sends at most
    one request and leaves the files as they are. *)
Theorem summarize_errors sv transcript language_code model_name fs :
  let o := summarize_with_langchain_and_openai sv transcript language_code
             model_name fs in
  (forall e, res o = inl e <-> split_text sv 2000 200 transcript = inl e)
  /\ files o = fs
  /\ (count is_chat_call (log o) <= 1)%nat
  /\ forall chunks e,
       split_text sv 2000 200 transcript = inr chunks ->
       chat_completions sv
         (request_for (join (u " ") (take 4 chunks)) language_code model_name)
       = inl e ->
       res o = inr None
       /\ St StError (u "Error with Groq API: " ++ exn_msg e) ∈ log o.
Proof.
  with_summary sv transcript language_code model_name fs H. cbn [res files log].
  destruct (split_text sv 2000 200 transcript) as [e|chunks].
  - injection H as -> -> ->.
    split; [intros e0; split; congruence|].
    split; [done|]. split; [cbn; lia|]. by intros ? ? [=].
  - cbv zeta in H.
    destruct (chat_completions sv _) as [e|content] eqn:Hc;
      injection H as -> -> ->.
    + split; [by split|]. split; [done|]. split; [cbn; lia|].
      intros chunks' e' [= <-] He'. rewrite Hc in He'. injection He' as <-.
      split; [done|]. apply list_elem_of_further, list_elem_of_here.
    + split; [by split|]. split; [done|]. split; [cbn; lia|].
      intros chunks' e' [= <-] He'. congruence.
Qed.

(** X11. With a language of the select box, [main] returns: no exception
    of a service, of the pipeline or of the summarizer leaves it. *)
Theorem main_returns sv link name code button fs :
  (name, code) ∈ get_available_languages ->
  res (main sv link name button fs) = inr tt.
Proof.
  intros Hn%languages_item. unfold main. mrun. rewrite Hn. mrun.
  destruct button; [|done]. destruct (truthy link); mrun; [|done].
  generalize (get_transcript_value sv link fs).
  destruct (get_transcript sv link fs) as [r1 f1 l1]. cbn [res].
  intros [[t l] ->]. mrun.
  by destruct (summarize_with_langchain_and_openai sv t code _ f1)
    as [[e|s] f2 l2]; mrun.
Qed.

Lemma main_returns_witness :
  res (main sv_nothing rick (u "Русский") true ∅) = inr tt.
Proof.
  apply (main_returns sv_nothing rick (u "Русский") (u "ru") true ∅).
  unfold get_available_languages.
  do 11 apply list_elem_of_further. apply list_elem_of_here.
Defined.

Lemma main_log sv link name code fs text language chunks :
  (name, code) ∈ get_available_languages -> truthy link = true ->
  res (get_transcript sv link fs) = inr (Some text, language) ->
  split_text sv 2000 200 (Some text) = inr chunks ->
  let request := request_for (join (u " ") (take 4 chunks)) code llama in
  let shown answer :=
    main_opening ++ main_fetching ++ log (get_transcript sv link fs)
    ++ main_generating name ++ Ext (ChatCompletion request) :: answer in
  match chat_completions sv request with
  | inr summary =>
    log (main sv link name true fs) = shown (main_ready summary)
  | inl e =>
    log (main sv link name true fs) =
    shown (St StError (u "Error with Groq API: " ++ exn_msg e) :: main_ready None)
  end.
Proof.
  intros Hn%languages_item Hl Hg Hs request shown. subst shown request.
  unfold llama, main. mrun. rewrite Hn. mrun. rewrite Hl.
  revert Hg. destruct (get_transcript sv link fs) as [r1 f1 l1]. cbn [res log].
  intros ->. mrun.
  with_summary sv (Some text) code (u "llama-3.1-8b-instant") f1 H.
  rewrite Hs in H. cbv zeta in H.
  destruct (chat_completions sv _) as [e|summary];
    pose proof (f_equal res H) as Hr4; pose proof (f_equal log H) as Hl4;
    cbn [res log] in Hr4, Hl4; subst r4 l4; mrun.
  all: unfold main_opening, main_fetching, main_generating, main_ready.
  all: cbn [app]; rewrite <- ?app_assoc; reflexivity.
Qed.

(** X12. A run of [main] with a transcript and an answer of the backend
    shows, in this order: the title and the introduction, the fetching
    status, what [get_transcript] shows and calls, the generating status
    with the name of the language, the one request (built from the first
    four chunks, the code of the language and the model
    [llama-3.1-8b-instant]), and the answer as it came, in [st.markdown]. *)
Theorem main_shows_summary sv link name code fs text language chunks summary :
  (name, code) ∈ get_available_languages -> truthy link = true ->
  res (get_transcript sv link fs) = inr (Some text, language) ->
  split_text sv 2000 200 (Some text) = inr chunks ->
  chat_completions sv
    (request_for (join (u " ") (take 4 chunks)) code llama) = inr summary ->
  log (main sv link name true fs) =
  main_opening ++ main_fetching ++ log (get_transcript sv link fs)
  ++ main_generating name
  ++ Ext (ChatCompletion
            (request_for (join (u " ") (take 4 chunks)) code llama))
     :: main_ready summary.
Proof.
  intros Hn Hl Hg Hs Hc.
  pose proof (main_log sv link name code fs text language chunks Hn Hl Hg Hs)
    as H.
  cbv zeta in H. by rewrite Hc in H.
Qed.

Lemma main_shows_summary_witness :
  log (main sv_captions rick (u "Deutsch") true ∅) =
  main_opening ++ main_fetching ++ log (get_transcript sv_captions rick ∅)
  ++ main_generating (u "Deutsch")
  ++ Ext (ChatCompletion
            (request_for (join (u " ") (take 4 [u "never gonna give you up"]))
                         (u "de") llama))
     :: main_ready (Some (u "a summary")).
Proof.
  apply (main_shows_summary sv_captions rick (u "Deutsch") (u "de") ∅
           (u "never gonna give you up") (Some (u "en"))
           [u "never gonna give you up"] (Some (u "a summary"))).
  - unfold get_available_languages.
    apply list_elem_of_further, list_elem_of_here.
  - reflexivity.
  - vm_compute. reflexivity.
  - vm_compute. reflexivity.
  - reflexivity.
Defined.

(** X13. When the generation backend raises, [main] does not stop at the
    error: after the message of the summarizer it still shows the status
    [Summary Ready!], calls [st.markdown(None)] and sets the progress to
    100. *)
Theorem main_ready_after_error sv link name code fs text language chunks e :
  (name, code) ∈ get_available_languages -> truthy link = true ->
  res (get_transcript sv link fs) = inr (Some text, language) ->
  split_text sv 2000 200 (Some text) = inr chunks ->
  chat_completions sv
    (request_for (join (u " ") (take 4 chunks)) code llama) = inl e ->
  exists before,
    log (main sv link name true fs) =
    before ++ St StError (u "Error with Groq API: " ++ exn_msg e)
           :: main_ready None.
Proof.
  intros Hn Hl Hg Hs Hc.
  pose proof (main_log sv link name code fs text language chunks Hn Hl Hg Hs)
    as H.
  cbv zeta in H. rewrite Hc in H. rewrite H.
  exists (main_opening ++ main_fetching ++ log (get_transcript sv link fs)
          ++ main_generating name
          ++ [Ext (ChatCompletion
                     (request_for (join (u " ") (take 4 chunks)) code llama))]).
  rewrite <- !app_assoc. reflexivity.
Qed.

Lemma main_ready_after_error_witness :
  exists before,
    log (main sv_backend_down rick (u "English") true ∅) =
    before ++ St StError (u "Error with Groq API: " ++ exn_msg overloaded)
           :: main_ready None.
Proof.
  apply (main_ready_after_error sv_backend_down rick (u "English") (u "en") ∅
           (u "never gonna give you up") (Some (u "en"))
           [u "never gonna give you up"] overloaded).
  - unfold get_available_languages. apply list_elem_of_here.
  - reflexivity.
  - vm_compute. reflexivity.
  - vm_compute. reflexivity.
  - reflexivity.
Defined.

(** ** The start of the script *)

(** X14. A key that [load_environment] returns is not empty and is the
    value of [GROQ_API_KEY] in the environment that the call leaves; and
    without a [.env] file next to the script that environment is the one
    the call found. *)
Theorem load_environment_key h fs environ key :
  (load_environment h fs environ).1 = inr key ->
  truthy key = true
  /\ (load_environment h fs environ).2 !! u "GROQ_API_KEY" = Some key
  /\ (path_join (script_dir h) (u ".env") ∉ fs ->
      (load_environment h fs environ).2 = environ).
Proof.
  unfold load_environment.
  destruct (bool_decide (path_join (script_dir h) (u ".env") ∈ fs)) eqn:Hf;
    cbv zeta.
  - destruct (load_dotenv h _ environ) as [e|env']; [done|].
    destruct (env' !! u "GROQ_API_KEY") as [k|] eqn:Hk; [|done].
    destruct (truthy k) eqn:Ht; [|done]. cbn. intros [= <-].
    apply bool_decide_eq_true in Hf. done.
  - destruct (environ !! u "GROQ_API_KEY") as [k|] eqn:Hk; [|done].
    destruct (truthy k) eqn:Ht; [|done]. cbn. by intros [= <-].
Qed.

Lemma load_environment_key_witness :
  truthy (u "gsk_live") = true
  /\ (load_environment plain_host ∅ {[u "GROQ_API_KEY" := u "gsk_live"]}).2
     !! u "GROQ_API_KEY" = Some (u "gsk_live")
  /\ (path_join (script_dir plain_host) (u ".env") ∉ (∅ : store) ->
      (load_environment plain_host ∅ {[u "GROQ_API_KEY" := u "gsk_live"]}).2
      = {[u "GROQ_API_KEY" := u "gsk_live"]}).
Proof.
  apply (load_environment_key plain_host ∅
           {[u "GROQ_API_KEY" := u "gsk_live"]} (u "gsk_live")).
  vm_compute. reflexivity.
Defined.

Lemma load_environment_result h fs environ :
  match (load_environment h fs environ).1 with
  | inl e => True
  | inr key =>
    truthy key = true
    /\ (load_environment h fs environ).2 !! u "GROQ_API_KEY" = Some key
  end.
Proof.
  unfold load_environment.
  destruct (bool_decide (path_join (script_dir h) (u ".env") ∈ fs)); cbv zeta.
  - destruct (load_dotenv h _ environ) as [e|env']; [done|].
    destruct (env' !! u "GROQ_API_KEY") as [k|] eqn:Hk; [|done].
    by destruct (truthy k) eqn:Ht.
  - destruct (environ !! u "GROQ_API_KEY") as [k|] eqn:Hk; [|done].
    by destruct (truthy k) eqn:Ht.
Qed.

(** X15. If, after the [.env] file is read, the environment has no
    [GROQ_API_KEY] or an empty one, the script shows the one error
    [Error initializing API client: ...] and stops: [main] is not run,
    nothing else is shown, no service is called. *)
Theorem script_stops_without_key h sv environ link name button fs :
  (forall key, (load_environment h fs environ).2 !! u "GROQ_API_KEY" = Some key ->
               truthy key = false) ->
  exists e, script h sv environ link name button fs = stopped e fs.
Proof.
  intros H. pose proof (load_environment_result h fs environ) as Hr.
  destruct (load_environment h fs environ).1 as [e|key] eqn:He.
  - exists e. unfold script, initialize, stopped. mrun. rewrite He. by mrun.
  - destruct Hr as [Ht Hk]. apply H in Hk. congruence.
Qed.

Lemma script_stops_without_key_witness :
  exists e,
    script plain_host sv_captions {[u "GROQ_API_KEY" := []]} rick
      (u "English") true ∅ = stopped e ∅.
Proof.
  apply script_stops_without_key.
  intros key Hk. vm_compute in Hk. by injection Hk as <-.
Defined.

(** X16. When the environment has a non-empty [GROQ_API_KEY], be it there
    from the start (no [.env] file next to the script) or after
    [load_dotenv] has read the file, and the client can be built, the
    script is a run of [main]: the start shows nothing and changes no
    file. *)
Theorem script_runs_main h sv environ environ' link name button fs key :
  let env_path := path_join (script_dir h) (u ".env") in
  ((env_path ∉ fs) /\ environ' = environ
   \/ (env_path ∈ fs) /\ load_dotenv h env_path environ = inr environ') ->
  environ' !! u "GROQ_API_KEY" = Some key -> truthy key = true ->
  new_OpenAI h key groq_url = inr tt ->
  script h sv environ link name button fs = main sv link name button fs.
Proof.
  intros env_path Hread Hk Ht Hc.
  assert ((load_environment h fs environ).1 = inr key) as Hl.
  { unfold load_environment. fold env_path. cbv zeta.
    destruct Hread as [[Hf ->] | [Hf Hd]].
    - rewrite bool_decide_eq_false_2 by done. by rewrite Hk, Ht.
    - rewrite bool_decide_eq_true_2 by done. by rewrite Hd, Hk, Ht. }
  unfold script, initialize. mrun. rewrite Hl. mrun. rewrite Hc. mrun.
  by destruct (main sv link name button fs) as [[e|[]] f l].
Qed.

Lemma script_runs_main_witness :
  script plain_host sv_captions {[u "GROQ_API_KEY" := u "gsk_live"]} rick
    (u "English") true ∅
  = main sv_captions rick (u "English") true ∅.
Proof.
  apply (script_runs_main plain_host sv_captions
           {[u "GROQ_API_KEY" := u "gsk_live"]}
           {[u "GROQ_API_KEY" := u "gsk_live"]} rick (u "English") true ∅
           (u "gsk_live")).
  - left. split; [apply not_elem_of_empty|reflexivity].
  - apply lookup_singleton_eq.
  - reflexivity.
  - reflexivity.
Defined.

(** ** [get_transcript_with_selenium] *)

Ltac brun :=
  cbv beta iota zeta delta
    [b_bind b_ret b_call bind_driver b_try_except b_try_finally driver_quit
     b_res driver_bound b_log].

Ltac bcrunch := brun; repeat (destruct_stuck; brun).


